(** * Schema reference plugin (typedoc.plugin.mjs)

    A shallow embedding of the TypeDoc plugin that renders the schema
    reference page, and the properties of its comment filter, anchors,
    categories, sanitizer and page assembly. *)

From Stdlib Require Import String Ascii.
From Stdlib Require Import List NArith Bool Lia Arith.
From Stdlib Require Import Sorting.Sorted Permutation.
Import ListNotations.

Set Implicit Arguments.

(** ** JavaScript strings

    A JavaScript string is a sequence of UTF-16 code units. *)

Definition char := N.
Definition jsstring := list char.

(** Literals are written as ASCII text and read as code units. *)
Definition lit (s : string) : jsstring :=
  map N_of_ascii (list_ascii_of_string s).

Definition chr (a : ascii) : char := N_of_ascii a.

(** The double quote, written by its code so that literals stay plain. *)
Definition dquote : char := 34%N.
(** U+00A0, the non-breaking space. *)
Definition nbsp : char := 160%N.
(** U+000A, the line feed. *)
Definition newline : char := 10%N.

Definition jsstring_eqb (a b : jsstring) : bool :=
  if list_eq_dec N.eq_dec a b then true else false.

(** [Array.prototype.join]. *)
Fixpoint join (sep : jsstring) (parts : list jsstring) : jsstring :=
  match parts with
  | [] => []
  | [p] => p
  | p :: rest => p ++ sep ++ join sep rest
  end.

(** ** The reflection model (supplied by TypeDoc, read only) *)

Inductive ReflectionKind :=
| KProject | KModule | KNamespace | KEnum | KEnumMember | KVariable
| KFunction | KClass | KInterface | KConstructor | KProperty | KMethod
| KCallSignature | KParameter | KTypeParameter | KAccessor | KTypeAlias
| KReference | KDocument.

Definition ReflectionKind_eqb (a b : ReflectionKind) : bool :=
  match a, b with
  | KProject, KProject | KModule, KModule | KNamespace, KNamespace
  | KEnum, KEnum | KEnumMember, KEnumMember | KVariable, KVariable
  | KFunction, KFunction | KClass, KClass | KInterface, KInterface
  | KConstructor, KConstructor | KProperty, KProperty | KMethod, KMethod
  | KCallSignature, KCallSignature | KParameter, KParameter
  | KTypeParameter, KTypeParameter | KAccessor, KAccessor
  | KTypeAlias, KTypeAlias | KReference, KReference
  | KDocument, KDocument => true
  | _, _ => false
  end.

Inductive DisplayPartKind := PartText | PartCode | PartInlineTag | PartRelativeLink.

Record CommentDisplayPart := {
  part_kind : DisplayPartKind;
  text : jsstring
}.

Record CommentTag := {
  tag : jsstring;
  content : list CommentDisplayPart
}.

Record Comment := {
  summary : list CommentDisplayPart;
  blockTags : list CommentTag
}.

(** A declaration with its (optional) comment, type and children.  The
    type of a member may be an inline object type, a [ReflectionType],
    which carries a declaration of its own. *)
#[warnings="-register-all"]
Inductive DeclarationReflection : Type :=
| Declaration (name : jsstring) (kind : ReflectionKind)
    (comment : option Comment) (type : option SomeType)
    (children : option (list DeclarationReflection))
with SomeType : Type :=
| ReflectionType (declaration : DeclarationReflection)
| IntrinsicType (name : jsstring)
| ReferenceType (name : jsstring)
| LiteralType (value : jsstring)
| ArrayType (elementType : SomeType)
| UnionType (types : list SomeType).

Definition decl_name (d : DeclarationReflection) : jsstring :=
  match d with Declaration n _ _ _ _ => n end.
Definition decl_kind (d : DeclarationReflection) : ReflectionKind :=
  match d with Declaration _ k _ _ _ => k end.
Definition decl_comment (d : DeclarationReflection) : option Comment :=
  match d with Declaration _ _ c _ _ => c end.
Definition decl_type (d : DeclarationReflection) : option SomeType :=
  match d with Declaration _ _ _ t _ => t end.
Definition decl_children (d : DeclarationReflection)
  : option (list DeclarationReflection) :=
  match d with Declaration _ _ _ _ cs => cs end.

(** What a router is asked about: a declaration, or one of the other
    reflections of the project, which have a kind of their own. *)
Inductive Reflection :=
| OfDeclaration (d : DeclarationReflection)
| OfProject (name : jsstring)
| OfDocument (name : jsstring)
| OfSignature (name : jsstring)
| OfParameter (name : jsstring)
| OfTypeParameter (name : jsstring).

Definition reflection_kind (r : Reflection) : ReflectionKind :=
  match r with
  | OfDeclaration d => decl_kind d
  | OfProject _ => KProject
  | OfDocument _ => KDocument
  | OfSignature _ => KCallSignature
  | OfParameter _ => KParameter
  | OfTypeParameter _ => KTypeParameter
  end.

Definition reflection_name (r : Reflection) : jsstring :=
  match r with
  | OfDeclaration d => decl_name d
  | OfProject n | OfDocument n | OfSignature n
  | OfParameter n | OfTypeParameter n => n
  end.

(** [reflection.kindOf(kind)]. *)
Definition kindOf (r : Reflection) (k : ReflectionKind) : bool :=
  ReflectionKind_eqb (reflection_kind r) k.

(** ** JSX values handed to the host's renderer *)

#[warnings="-register-all"]
Inductive JsxChildren (E : Type) : Type :=
| JsxElement (e : E)
| JsxUndefined
| JsxArray (items : list (JsxChildren E)).

Arguments JsxUndefined {E}.

(** The render context of the default theme, as far as the plugin uses it. *)
Record RenderContext (E : Type) := {
  reflectionPreview : DeclarationReflection -> option E;
  commentSummary : DeclarationReflection -> JsxChildren E;
  memberDeclaration : DeclarationReflection -> E;
  member : DeclarationReflection -> E
}.

Record ProjectReflection := {
  project_name : jsstring;
  project_children : list DeclarationReflection
}.

(** What the router's [buildPages] yields for one page. *)
Record PageDefinition := {
  page_model : Reflection;
  page_url : jsstring;
  page_kind : jsstring
}.

Record PageEvent := {
  model : Reflection;
  url : jsstring;
  filename : jsstring;
  pageKind : jsstring;
  project : ProjectReflection
}.

(** ** The host

    Everything the plugin calls but does not define: methods of TypeDoc's
    reflections, comments, router and theme, and the string collation of
    the JavaScript runtime.  The plugin is verified for every host. *)
Class Host := {
  JsxNode : Type;
  (** [reflection.hasComment()] *)
  Reflection_hasComment : DeclarationReflection -> bool;
  (** [comment.getTag(name)] *)
  Comment_getTag : Comment -> jsstring -> option CommentTag;
  (** [reflection.getFriendlyFullName()] *)
  getFriendlyFullName : DeclarationReflection -> jsstring;
  (** [StructureRouter.prototype.getFullUrl], reached through [super]:
      the URL that the inherited router has for the target.  For a target
      that it has none for, the call throws: [None]. *)
  super_getFullUrl : Reflection -> option jsstring;
  (** [router.buildPages(project)], inherited from [StructureRouter] *)
  buildPages : ProjectReflection -> list PageDefinition;
  (** [a.localeCompare(b)] *)
  localeCompare : jsstring -> jsstring -> comparison;
  (** [s.toLowerCase()], the case mapping of the runtime *)
  toLowerCase : jsstring -> jsstring;
  (** [theme.getRenderContext(event)] *)
  getRenderContext : PageEvent -> RenderContext JsxNode;
  (** [JSX.renderElement(JSX.createElement(JSX.Fragment, null, elements))] *)
  renderFragment : list (JsxChildren JsxNode) -> jsstring
}.

(** ** String primitives of the runtime *)

Open Scope N_scope.

(** [s.startsWith(prefix)], the test behind a search-string match. *)
Fixpoint startsWith (prefix s : jsstring) : bool :=
  match prefix, s with
  | [], _ => true
  | _ :: _, [] => false
  | p :: prefix', c :: s' => (p =? c) && startsWith prefix' s'
  end.

(** Length of the longest prefix whose code units all satisfy [p]: what a
    greedy [+] over a character class consumes. *)
Fixpoint countWhile (p : char -> bool) (s : jsstring) : nat :=
  match s with
  | c :: rest => if p c then S (countWhile p rest) else O
  | [] => O
  end.

(** A pattern tried at the start of the remaining input.  It answers with
    the length of the text it matches there and the replacement for it.
    Every pattern of the plugin matches at least one code unit. *)
Definition Matcher := jsstring -> option (nat * jsstring).

(** [s.replaceAll(pattern, replacement)]: scan from the left; where the
    pattern matches, emit the replacement and resume after the match,
    elsewhere copy one code unit.  [skip] counts the code units of the
    current match that are still to be passed over. *)
Fixpoint replaceAllFrom (m : Matcher) (skip : nat) (s : jsstring) : jsstring :=
  match s with
  | [] => []
  | c :: rest =>
      match skip with
      | S k => replaceAllFrom m k rest
      | O =>
          match m s with
          | Some (len, replacement) =>
              replacement ++ replaceAllFrom m (pred len) rest
          | None => c :: replaceAllFrom m O rest
          end
      end
  end.

Definition replaceAll (m : Matcher) (s : jsstring) : jsstring :=
  replaceAllFrom m O s.

(** A search string as a pattern. *)
Definition literal (pattern replacement : jsstring) : Matcher :=
  fun s =>
    if startsWith pattern s then Some (length pattern, replacement) else None.

(** [s.replace(pattern, replacement)] with a search string: the first
    occurrence only. *)
Fixpoint replaceFirst (pattern replacement s : jsstring) {struct s} : jsstring :=
  if startsWith pattern s then replacement ++ skipn (length pattern) s
  else match s with
       | [] => []
       | c :: rest => c :: replaceFirst pattern replacement rest
       end.

(** The lower-case partner of a capital letter of Basic Latin or of the
    Latin-1 Supplement; any other code unit is given back as it is.  On
    text of these two blocks this is what [toLowerCase] does to each code
    unit; the case mapping of other text is left to the host. *)
Definition lowerUnit (c : char) : char :=
  if (65 <=? c) && (c <=? 90) then c + 32
  else if (192 <=? c) && (c <=? 222) && negb (c =? 215) then c + 32
  else c.

(** Default order of [Array.prototype.sort]: strings by code units. *)
Fixpoint compareCodeUnits (a b : jsstring) : comparison :=
  match a, b with
  | [], [] => Eq
  | [], _ :: _ => Lt
  | _ :: _, [] => Gt
  | x :: a', y :: b' =>
      match N.compare x y with
      | Eq => compareCodeUnits a' b'
      | c => c
      end
  end.

Close Scope N_scope.

(** [Array.prototype.sort] is stable; with a consistent comparator its
    result is the one of a stable insertion sort. *)
Fixpoint insertSorted {A} (cmp : A -> A -> comparison) (x : A) (l : list A)
  : list A :=
  match l with
  | [] => [x]
  | y :: rest =>
      match cmp x y with
      | Gt => y :: insertSorted cmp x rest
      | _ => x :: l
      end
  end.

Fixpoint sortWith {A} (cmp : A -> A -> comparison) (l : list A) : list A :=
  match l with
  | [] => []
  | x :: rest => insertSorted cmp x (sortWith cmp rest)
  end.

(** ** [Map<string, string[]>], in insertion order *)

Definition OutputMap := list (jsstring * list jsstring).

Definition Map_has (key : jsstring) (m : OutputMap) : bool :=
  existsb (fun entry => jsstring_eqb (fst entry) key) m.

Fixpoint Map_get (key : jsstring) (m : OutputMap) : option (list jsstring) :=
  match m with
  | [] => None
  | (k, v) :: rest => if jsstring_eqb k key then Some v else Map_get key rest
  end.

(** [m.set(key, value)]: a new key goes last, a known key keeps its place. *)
Fixpoint Map_set (key : jsstring) (value : list jsstring) (m : OutputMap)
  : OutputMap :=
  match m with
  | [] => [(key, value)]
  | (k, v) :: rest =>
      if jsstring_eqb k key then (k, value) :: rest
      else (k, v) :: Map_set key value rest
  end.

(** [m.get(key)?.push(item)]: the array held by the map grows in place. *)
Fixpoint Map_push (key : jsstring) (item : jsstring) (m : OutputMap)
  : OutputMap :=
  match m with
  | [] => []
  | (k, v) :: rest =>
      if jsstring_eqb k key then (k, v ++ [item]) :: rest
      else (k, v) :: Map_push key item rest
  end.

Definition Map_keys (m : OutputMap) : list jsstring := map fst m.

(** ** The patterns of the sanitizer and of the router *)

Open Scope N_scope.

Definition isLevelDigit (c : char) : bool := (49 <=? c) && (c <=? 54).

Definition isLowerAsciiLetter (c : char) : bool := (97 <=? c) && (c <=? 122).

(** The replacement [<div data-typedoc-h="$1"] with the captured digit. *)
Definition divOpen (level : char) : jsstring :=
  lit "<div data-typedoc-h=" ++ [dquote; level; dquote].

(** [/<h([1-6])/g], replaced by [<div data-typedoc-h="$1"]. *)
Definition headingOpen : Matcher :=
  fun s =>
    match s with
    | c0 :: c1 :: d :: _ =>
        if (c0 =? chr "<") && (c1 =? chr "h") && isLevelDigit d
        then Some (3%nat, divOpen d)
        else None
    | _ => None
    end.

(** [/<\/h[1-6]>/g], replaced by [</div>]. *)
Definition headingClose : Matcher :=
  fun s =>
    match s with
    | c0 :: c1 :: c2 :: d :: c4 :: _ =>
        if (c0 =? chr "<") && (c1 =? chr "/") && (c2 =? chr "h")
           && isLevelDigit d && (c4 =? chr ">")
        then Some (5%nat, lit "</div>")
        else None
    | _ => None
    end.

(** [/\n+</g], replaced by a space and [<].  The greedy run of line feeds
    is maximal: a shorter run is followed by a line feed, never by [<]. *)
Definition newlinesBeforeTag : Matcher :=
  fun s =>
    match countWhile (N.eqb newline) s with
    | O => None
    | S n =>
        match skipn (S n) s with
        | c :: _ => if c =? chr "<" then Some (S (S n), lit " <") else None
        | [] => None
        end
    end.

(** [/<p>@TJS-type [^<]+<\/p>/g], replaced by the empty string.  The class
    [[^<]] takes every code unit but [<], line feeds included, so the
    greedy run stops exactly at the next [<]. *)
Definition tjsTypeParagraph : Matcher :=
  fun s =>
    let opening := lit "<p>@TJS-type " in
    if startsWith opening s then
      let body := skipn (length opening) s in
      match countWhile (fun c => negb (c =? chr "<")) body with
      | O => None
      | S n =>
          if startsWith (lit "</p>") (skipn (S n) body)
          then Some ((length opening + S n + 4)%nat, [])
          else None
      end
    else None.

(** [/[./#]/g], replaced by a hyphen. *)
Definition pathSeparator : Matcher :=
  fun s =>
    match s with
    | c :: _ =>
        if (c =? chr ".") || (c =? chr "/") || (c =? chr "#")
        then Some (1%nat, lit "-")
        else None
    | [] => None
    end.

Close Scope N_scope.

(** ** The sanitizer, lines 156-174 of [renderReflection] *)

(** Convert [<hN>] elements to [<div>]. *)
Definition convertHeadings (content : jsstring) : jsstring :=
  replaceAll headingClose (replaceAll headingOpen content).

(** Reduce code block indent from 4 spaces to 2 spaces. *)
Definition reduceIndent (content : jsstring) : jsstring :=
  replaceAll (literal [nbsp; nbsp] [nbsp]) content.

Definition encodeNbsp (content : jsstring) : jsstring :=
  replaceAll (literal [nbsp] (lit "&nbsp;")) content.

Definition joinLinesBeforeTags (content : jsstring) : jsstring :=
  replaceAll newlinesBeforeTag content.

Definition escapeBracket (content : jsstring) : jsstring :=
  replaceAll (literal (lit "[") (lit "&#x5B;")) content.

Definition escapeUnderscore (content : jsstring) : jsstring :=
  replaceAll (literal (lit "_") (lit "&#x5F;")) content.

Definition escapeBrace (content : jsstring) : jsstring :=
  replaceAll (literal (lit "{") (lit "&#x7B;")) content.

(** Remove [@TJS-type] tags. *)
Definition removeTjsType (content : jsstring) : jsstring :=
  replaceAll tjsTypeParagraph content.

(** The rewrites up to the removal of the [@TJS-type] paragraphs. *)
Definition escapeForMintlify (content : jsstring) : jsstring :=
  escapeBrace
    (escapeUnderscore
       (escapeBracket
          (joinLinesBeforeTags
             (encodeNbsp (reduceIndent (convertHeadings content)))))).

Definition sanitize (content : jsstring) : jsstring :=
  removeTjsType (escapeForMintlify content).

(** ** The plugin *)

Definition asDeclaration (r : Reflection) : option DeclarationReflection :=
  match r with
  | OfDeclaration d => Some d
  | _ => None
  end.

Section Plugin.
Context {host : Host}.

(** [hasComment], lines 57-62. *)
Fixpoint hasComment (member : DeclarationReflection) : bool :=
  Reflection_hasComment member ||
  match decl_type member with
  | Some (ReflectionType declaration) =>
      match decl_children declaration with
      | Some children => existsb hasComment children
      | None => false
      end
  | _ => false
  end.

(** [SchemaReferenceRouter.getAnchor], lines 40-50.  [None] is the
    exception of the inherited [getFullUrl], which passes through. *)
Definition getAnchor (target : Reflection) : option jsstring :=
  if match asDeclaration target with
     | Some declaration =>
         kindOf target KProperty && negb (hasComment declaration)
     | None => false
     end
  then Some []
  else
    match super_getFullUrl target with
    | Some url =>
        Some (toLowerCase
                (replaceAll pathSeparator
                   (replaceFirst (lit ".html") [] url)))
    | None => None
    end.

(** [SchemaReferenceRouter.getFullUrl], lines 32-34. *)
Definition getFullUrl (target : Reflection) : option jsstring :=
  match getAnchor target with
  | Some anchor => Some (lit "#" ++ anchor)
  | None => None
  end.

(** [buildPageEvents], lines 69-82. *)
Definition buildPageEvents (proj : ProjectReflection) : list PageEvent :=
  map (fun pageDefinition =>
         {| model := page_model pageDefinition;
            url := page_url pageDefinition;
            filename := page_url pageDefinition;
            pageKind := page_kind pageDefinition;
            project := proj |})
      (buildPages proj).

(** [isDeclarationReflectionEvent], lines 115-117. *)
Definition isDeclarationReflectionEvent (event : PageEvent) : bool :=
  match asDeclaration (model event) with
  | Some _ => true
  | None => false
  end.

(** [getReflectionCategory], lines 123-126. *)
Definition getReflectionCategory (reflection : DeclarationReflection)
  : jsstring :=
  let categoryTag :=
    match decl_comment reflection with
    | Some comment => Comment_getTag comment (lit "@category")
    | None => None
    end in
  match categoryTag with
  | Some categoryTag => join (lit " ") (map text (content categoryTag))
  | None => []
  end.

(** [renderCategory], lines 132-136. *)
Definition renderCategory (category : jsstring) : jsstring :=
  let heading :=
    match category with
    | [] => lit "Common Types"
    | _ :: _ => category
    end in
  let heading :=
    match heading with
    | c :: _ =>
        if isLowerAsciiLetter c then lit "`" ++ heading ++ lit "`" else heading
    | [] => heading
    end in
  lit "## " ++ heading ++ [newline].

(** [renderJsxElements], lines 182-184. *)
Definition renderJsxElements (elements : list (JsxChildren JsxNode))
  : jsstring :=
  renderFragment elements.

(** The members rendered below a declaration, line 145. *)
Definition documentedMembers (reflection : DeclarationReflection)
  : list DeclarationReflection :=
  match decl_children reflection with
  | Some children => filter hasComment children
  | None => []
  end.

(** The markup before the sanitizer, lines 147-154. *)
Definition renderContent (reflection : DeclarationReflection)
  (context : RenderContext JsxNode) : jsstring :=
  let members := documentedMembers reflection in
  let codeBlock := reflectionPreview context reflection in
  renderJsxElements
    [ match codeBlock with
      | Some codeBlock =>
          JsxArray [JsxElement codeBlock; commentSummary context reflection]
      | None => JsxElement (memberDeclaration context reflection)
      end;
      JsxArray (map (fun m => JsxElement (member context m)) members) ].

(** [renderReflection], lines 143-177. *)
Definition renderReflection (reflection : DeclarationReflection)
  (context : RenderContext JsxNode) : jsstring :=
  let name := getFriendlyFullName reflection in
  let content := renderContent reflection context in
  let content := sanitize content in
  lit "### `" ++ name ++ lit "`" ++ [newline; newline] ++ content ++ [newline].

(** The comparator of line 92. *)
Definition compareEventNames (event1 event2 : PageEvent) : comparison :=
  localeCompare (reflection_name (model event1))
                (reflection_name (model event2)).

(** One turn of the loop of lines 97-105. *)
Definition collectEvent (outputsByCategory : OutputMap) (event : PageEvent)
  : OutputMap :=
  match asDeclaration (model event) with
  | Some declaration =>
      let category := getReflectionCategory declaration in
      let rendered := renderReflection declaration (getRenderContext event) in
      let outputsByCategory :=
        if Map_has category outputsByCategory then outputsByCategory
        else Map_set category [renderCategory category] outputsByCategory in
      Map_push category rendered outputsByCategory
  | None => outputsByCategory
  end.

Definition declarationEventsOf (events : list PageEvent) : list PageEvent :=
  sortWith compareEventNames (filter isDeclarationReflectionEvent events).

Definition outputsByCategoryOf (events : list PageEvent) : OutputMap :=
  fold_left collectEvent (declarationEventsOf events) [].

(** The elements joined by line 108: the keys, sorted, each replaced by
    the array the map holds for it.  Every key has one; [undefined] would
    be joined as the empty string. *)
Definition pageElements (events : list PageEvent) : list jsstring :=
  let outputsByCategory := outputsByCategoryOf events in
  flat_map
    (fun category =>
       match Map_get category outputsByCategory with
       | Some outputs => outputs
       | None => [[]]
       end)
    (sortWith compareCodeUnits (Map_keys outputsByCategory)).

(** [renderPageEvents], lines 89-109. *)
Definition renderPageEvents (events : list PageEvent) : jsstring :=
  join [newline] (pageElements events).

(** [process.stdout.write(chunk)] on the text written so far. *)
Definition stdout_write (chunk : jsstring) (written : jsstring) : jsstring :=
  written ++ chunk.

(** The output callback of [load], lines 6-22: what reaches standard
    output for a project. *)
Definition load (proj : ProjectReflection) : jsstring :=
  let pageEvents := buildPageEvents proj in
  let rendered := renderPageEvents pageEvents in
  let out := stdout_write (lit "---" ++ [newline]) [] in
  let out := stdout_write (lit "title: Schema Reference" ++ [newline]) out in
  let out := stdout_write (lit "---" ++ [newline; newline]) out in
  let out :=
    stdout_write
      (lit "<div id=" ++ [dquote] ++ lit "schema-reference" ++ [dquote]
         ++ lit " />" ++ [newline; newline]) out in
  let out := stdout_write rendered out in
  stdout_write [] out.

End Plugin.

(** ** A small host for worked examples

    Nodes are markup that is already serialized; comments behave as
    TypeDoc's do ([hasComment] asks for a visible summary part or a block
    tag, [getTag] finds the first block tag of that name); every top-level
    declaration has a page; names are collated by code units, and the
    case mapping is that of Basic Latin and Latin-1. *)

Definition isVisiblePart (part : CommentDisplayPart) : bool :=
  match part_kind part with
  | PartText => negb (jsstring_eqb (text part) [])
  | _ => true
  end.

Definition sample_hasComment (d : DeclarationReflection) : bool :=
  match decl_comment d with
  | Some c =>
      existsb isVisiblePart (summary c)
      || match blockTags c with [] => false | _ :: _ => true end
  | None => false
  end.

Definition sample_getTag (c : Comment) (name : jsstring) : option CommentTag :=
  find (fun t => jsstring_eqb (tag t) name) (blockTags c).

Fixpoint sample_renderChildren (child : JsxChildren jsstring) : jsstring :=
  match child with
  | JsxElement e => e
  | JsxUndefined => []
  | JsxArray items => flat_map sample_renderChildren items
  end.

Definition sample_context : RenderContext jsstring :=
  {| reflectionPreview := fun _ => None;
     commentSummary := fun _ => JsxUndefined;
     memberDeclaration := fun d => lit "<p>" ++ decl_name d ++ lit "</p>";
     member := fun d =>
       lit "<section><h4>" ++ decl_name d ++ lit "</h4></section>" |}.

(** The URLs of the small host: a page for a declaration or a document,
    the index for the project, an anchor in a page for a signature or a
    type parameter, and none for a parameter or for the declaration
    [__type] of an inline object type. *)
Definition sample_getFullUrl (r : Reflection) : option jsstring :=
  match r with
  | OfDeclaration d =>
      if jsstring_eqb (decl_name d) (lit "__type") then None
      else Some (lit "types/" ++ decl_name d ++ lit ".html")
  | OfProject _ => Some (lit "index.html")
  | OfDocument n => Some (lit "documents/" ++ n ++ lit ".html")
  | OfSignature n | OfTypeParameter n =>
      Some (lit "types/Schema.html#" ++ n)
  | OfParameter _ => None
  end.

Definition sample_buildPages (proj : ProjectReflection) : list PageDefinition :=
  map (fun d => {| page_model := OfDeclaration d;
                   page_url := lit "types/" ++ decl_name d ++ lit ".html";
                   page_kind := lit "reflection" |})
      (project_children proj).

Definition sampleHost : Host :=
  {| JsxNode := jsstring;
     Reflection_hasComment := sample_hasComment;
     Comment_getTag := sample_getTag;
     getFriendlyFullName := decl_name;
     super_getFullUrl := sample_getFullUrl;
     buildPages := sample_buildPages;
     localeCompare := compareCodeUnits;
     toLowerCase := map lowerUnit;
     getRenderContext := fun _ => sample_context;
     renderFragment := flat_map sample_renderChildren |}.

(** The pages that [StructureRouter] yields for the project itself, the
    index and the list of modules; their model is the project. *)
Definition projectPages (proj : ProjectReflection) : list PageDefinition :=
  [ {| page_model := OfProject (project_name proj);
       page_url := lit "index.html";
       page_kind := lit "index" |};
    {| page_model := OfProject (project_name proj);
       page_url := lit "modules.html";
       page_kind := lit "reflection" |} ].

(** The small host with a router that yields the pages of the project
    before those of the declarations. *)
Definition structureHost : Host :=
  {| JsxNode := jsstring;
     Reflection_hasComment := sample_hasComment;
     Comment_getTag := sample_getTag;
     getFriendlyFullName := decl_name;
     super_getFullUrl := sample_getFullUrl;
     buildPages := fun proj => projectPages proj ++ sample_buildPages proj;
     localeCompare := compareCodeUnits;
     toLowerCase := map lowerUnit;
     getRenderContext := fun _ => sample_context;
     renderFragment := flat_map sample_renderChildren |}.

(** A preview as the default theme gives it for an interface: a code
    block that lists every child of the declaration, documented or not. *)
Definition listing_preview (d : DeclarationReflection) : jsstring :=
  lit "<pre>interface " ++ decl_name d ++ lit " {"
  ++ flat_map (fun child => lit " " ++ decl_name child ++ lit ";")
       (match decl_children d with Some children => children | None => [] end)
  ++ lit " }</pre>".

Definition listing_context : RenderContext jsstring :=
  {| reflectionPreview := fun d => Some (listing_preview d);
     commentSummary := fun _ => JsxUndefined;
     memberDeclaration := fun d => lit "<p>" ++ decl_name d ++ lit "</p>";
     member := fun d =>
       lit "<section><h4>" ++ decl_name d ++ lit "</h4></section>" |}.

(** The small host with a theme that renders such previews. *)
Definition listingHost : Host :=
  {| JsxNode := jsstring;
     Reflection_hasComment := sample_hasComment;
     Comment_getTag := sample_getTag;
     getFriendlyFullName := decl_name;
     super_getFullUrl := sample_getFullUrl;
     buildPages := sample_buildPages;
     localeCompare := compareCodeUnits;
     toLowerCase := map lowerUnit;
     getRenderContext := fun _ => listing_context;
     renderFragment := flat_map sample_renderChildren |}.

(** A comment with one line of summary text and the given block tags. *)
Definition commentOf (line : jsstring) (tags : list CommentTag) : Comment :=
  {| summary := [ {| part_kind := PartText; text := line |} ];
     blockTags := tags |}.

Definition categoryTagOf (parts : list CommentDisplayPart) : CommentTag :=
  {| tag := lit "@category"; content := parts |}.

Definition textPart (s : jsstring) : CommentDisplayPart :=
  {| part_kind := PartText; text := s |}.

Definition codePart (s : jsstring) : CommentDisplayPart :=
  {| part_kind := PartCode; text := s |}.

(** A property whose type is an inline object type with these fields. *)
Definition recordProperty (name : jsstring) (c : option Comment)
  (fields : list DeclarationReflection) : DeclarationReflection :=
  Declaration name KProperty c
    (Some (ReflectionType (Declaration (lit "__type") KTypeAlias None None
                             (Some fields))))
    None.

Definition plainProperty (name : jsstring) (c : option Comment)
  : DeclarationReflection :=
  Declaration name KProperty c (Some (IntrinsicType (lit "string"))) None.

(** [{ outer: { middle: { leaf: string } } }], commented at the leaf only. *)
Definition leafOnly : DeclarationReflection :=
  plainProperty (lit "leaf") (Some (commentOf (lit "The leaf.") [])).
Definition middleOfLeaf : DeclarationReflection :=
  recordProperty (lit "middle") None [leafOnly].
Definition outerOfLeaf : DeclarationReflection :=
  recordProperty (lit "outer") None [middleOfLeaf].

(** Three declarations labelled [Tools], nothing and [prompts]. *)
Definition toolsDeclaration : DeclarationReflection :=
  Declaration (lit "CallToolRequest") KInterface
    (Some (commentOf (lit "Calls a tool.")
             [categoryTagOf [textPart (lit "Tools")]]))
    None None.

Definition plainDeclaration : DeclarationReflection :=
  Declaration (lit "Cursor") KTypeAlias
    (Some (commentOf (lit "An opaque token.") [])) None None.

Definition promptsDeclaration : DeclarationReflection :=
  Declaration (lit "GetPromptRequest") KInterface
    (Some (commentOf (lit "Gets a prompt.")
             [categoryTagOf [textPart (lit "prompts")]]))
    None None.

Definition threeLabels : ProjectReflection :=
  {| project_name := lit "schema";
     project_children :=
       [toolsDeclaration; plainDeclaration; promptsDeclaration] |}.

Definition eventOf (proj : ProjectReflection) (d : DeclarationReflection)
  : PageEvent :=
  {| model := OfDeclaration d;
     url := lit "types/" ++ decl_name d ++ lit ".html";
     filename := lit "types/" ++ decl_name d ++ lit ".html";
     pageKind := lit "reflection";
     project := proj |}.

(** An interface with one documented and one undocumented property. *)
Definition toolDeclaration : DeclarationReflection :=
  Declaration (lit "Tool") KInterface
    (Some (commentOf (lit "A tool the client can call.")
             [categoryTagOf [textPart (lit "Tools")]]))
    None
    (Some [ plainProperty (lit "name")
              (Some (commentOf (lit "The name of the tool.") []));
            plainProperty (lit "extra") None ]).

Definition toolProject : ProjectReflection :=
  {| project_name := lit "schema";
     project_children := [toolDeclaration; plainDeclaration] |}.

(** ** Vocabulary of the properties *)

(** *** Documentation *)

(** The fields of the inline object type of a declaration, if it has one. *)
Definition nestedChildren (parent : DeclarationReflection)
  : list DeclarationReflection :=
  match decl_type parent with
  | Some (ReflectionType declaration) =>
      match decl_children declaration with
      | Some children => children
      | None => []
      end
  | _ => []
  end.

(** [nestedIn c d]: [c] is [d] or is reached from [d] through inline
    object types. *)
Inductive nestedIn : DeclarationReflection -> DeclarationReflection -> Prop :=
| nestedIn_self d : nestedIn d d
| nestedIn_field c m d :
    In m (nestedChildren d) -> nestedIn c m -> nestedIn c d.

(** *** Anchors *)

(** Upper-case letters of Basic Latin and Latin-1. *)
Definition isUpperUnit (c : char) : bool :=
  ((65 <=? c) && (c <=? 90)
   || (192 <=? c) && (c <=? 222) && negb (c =? 215))%N.

(** Their lower-case partners: a-z and the lower-case letters of
    Latin-1 that [toLowerCase] produces. *)
Definition isLowerUnit (c : char) : bool :=
  ((97 <=? c) && (c <=? 122)
   || (224 <=? c) && (c <=? 254) && negb (c =? 247))%N.

(** [.], [/] and [#]. *)
Definition isPathSeparator (c : char) : bool :=
  ((c =? chr ".") || (c =? chr "/") || (c =? chr "#"))%N.

(** The code units of Basic Latin and of the Latin-1 Supplement. *)
Definition isLatin1 (c : char) : bool := (c <? 256)%N.

(** What the properties of the anchors take from the case mapping of the
    runtime.  A lowered text is left as it is when lowered again. *)
Definition lowersOnce (lower : jsstring -> jsstring) : Prop :=
  forall s, lower (lower s) = lower s.

(** Lowering brings no [.], [/] or [#] into a text. *)
Definition lowersWithoutSeparators (lower : jsstring -> jsstring) : Prop :=
  forall s c, isPathSeparator c = true -> In c (lower s) -> In c s.

(** Text of Basic Latin and Latin-1 is lowered code unit by code unit. *)
Definition lowersLatin1 (lower : jsstring -> jsstring) : Prop :=
  forall s, forallb isLatin1 s = true -> lower s = map lowerUnit s.

(** A Property declaration without documentation, as a router target. *)
Definition undocumentedProperty {host : Host} (target : Reflection) : Prop :=
  exists S, target = OfDeclaration S /\ decl_kind S = KProperty
            /\ hasComment S = false.

(** *** Categories *)

(** The parts with the separator put between neighbours. *)
Fixpoint intersperse (sep : jsstring) (parts : list jsstring) : list jsstring :=
  match parts with
  | [] => []
  | [p] => [p]
  | p :: rest => p :: sep :: intersperse sep rest
  end.

(** The category tag of a declaration, when its comment has one. *)
Definition categoryTagOfDeclaration {host : Host} (d : DeclarationReflection)
  : option CommentTag :=
  match decl_comment d with
  | Some c => Comment_getTag c (lit "@category")
  | None => None
  end.

(** *** Fragments *)

(** [selects keep l l']: [l'] is [l] without the elements that [keep]
    rejects, in the order of [l]. *)
Inductive selects {A} (keep : A -> bool) : list A -> list A -> Prop :=
| selects_nil : selects keep [] []
| selects_keep x l l' :
    keep x = true -> selects keep l l' -> selects keep (x :: l) (x :: l')
| selects_drop x l l' :
    keep x = false -> selects keep l l' -> selects keep (x :: l) l'.

(** The direct children of a declaration; none when it has no array. *)
Definition directChildren (d : DeclarationReflection)
  : list DeclarationReflection :=
  match decl_children d with
  | Some children => children
  | None => []
  end.

(** The declaration's own content: the preview with the comment summary,
    or the member declaration when the host gives no preview. *)
Definition ownContent {E} (context : RenderContext E)
  (reflection : DeclarationReflection) : JsxChildren E :=
  match reflectionPreview context reflection with
  | Some codeBlock =>
      JsxArray [JsxElement codeBlock; commentSummary context reflection]
  | None => JsxElement (memberDeclaration context reflection)
  end.

(** The heading line of a fragment, without its line feed. *)
Definition headingLine (name : jsstring) : jsstring :=
  lit "### `" ++ name ++ lit "`".

(** *** The page *)

(** The labels of a list, each once, in the order of first appearance. *)
Fixpoint firstSeen (labels : list jsstring) : list jsstring :=
  match labels with
  | [] => []
  | c :: rest =>
      c :: filter (fun c' => negb (jsstring_eqb c' c)) (firstSeen rest)
  end.

(** Strictly ascending order of code units. *)
Definition codeUnitLt (a b : jsstring) : Prop := compareCodeUnits a b = Lt.

(** The capital letters [A] to [Z]. *)
Definition isUpperAsciiLetter (c : char) : bool := ((65 <=? c) && (c <=? 90))%N.

(** The label begins with a code unit of this class. *)
Definition initialIs (class : char -> bool) (label : jsstring) : Prop :=
  match label with
  | c :: _ => class c = true
  | [] => False
  end.

(** [a] stands before [b] in the list. *)
Definition standsBefore {A} (a b : A) (l : list A) : Prop :=
  exists l1 l2 l3, l = l1 ++ a :: l2 ++ b :: l3.



Section PageVocabulary.
Context {host : Host}.

Definition eventCategory (event : PageEvent) : jsstring :=
  match asDeclaration (model event) with
  | Some declaration => getReflectionCategory declaration
  | None => []
  end.

Definition eventFragment (event : PageEvent) : jsstring :=
  match asDeclaration (model event) with
  | Some declaration =>
      renderReflection declaration (getRenderContext event)
  | None => []
  end.

(** The bucket of a label: its heading, then the fragments of the
    declarations that carry the label, in the order given. *)
Definition bucketOf (declarations : list PageEvent) (category : jsstring)
  : list jsstring :=
  renderCategory category
  :: map eventFragment
       (filter (fun event => jsstring_eqb (eventCategory event) category)
               declarations).

(** The map after the loop has seen [declarations]. *)
Definition bucketsOf (declarations : list PageEvent) : OutputMap :=
  map (fun category => (category, bucketOf declarations category))
      (firstSeen (map eventCategory declarations)).

End PageVocabulary.

(** The front matter and the anchor target that precede the body. *)
Definition frontMatter : jsstring :=
  lit "---" ++ [newline]
  ++ lit "title: Schema Reference" ++ [newline]
  ++ lit "---" ++ [newline].

Definition anchorTarget : jsstring :=
  lit "<div id=" ++ [dquote] ++ lit "schema-reference" ++ [dquote] ++ lit " />".

(** *** Markup *)

(** A pattern of fixed length, one test per code unit. *)
Definition Shape := list (char -> bool).

(** The shape fits at the start of the text. *)
Fixpoint fits (shape : Shape) (s : jsstring) : bool :=
  match shape, s with
  | [], _ => true
  | _ :: _, [] => false
  | p :: shape', c :: s' => p c && fits shape' s'
  end.

(** The shape fits somewhere in the text. *)
Fixpoint occursIn (shape : Shape) (s : jsstring) : bool :=
  fits shape s
  || match s with
     | [] => false
     | _ :: rest => occursIn shape rest
     end.

(** [<h1] ... [<h6]. *)
Definition headingOpenShape : Shape :=
  [N.eqb (chr "<"); N.eqb (chr "h"); isLevelDigit].

(** [</h1>] ... [</h6>]. *)
Definition headingCloseShape : Shape :=
  [N.eqb (chr "<"); N.eqb (chr "/"); N.eqb (chr "h"); isLevelDigit;
   N.eqb (chr ">")].

Definition hasHeadingTag (s : jsstring) : bool :=
  occursIn headingOpenShape s || occursIn headingCloseShape s.

(** Every [<] is closed by a [>] before the next [<], as in markup whose
    text has its angle brackets escaped.  [open] tells that a [<] is
    waiting for its [>]. *)
Fixpoint bracketsClosedFrom (open : bool) (s : jsstring) : bool :=
  match s with
  | [] => true
  | c :: rest =>
      if (c =? chr "<")%N then negb open && bracketsClosedFrom true rest
      else if (c =? chr ">")%N then bracketsClosedFrom false rest
      else bracketsClosedFrom open rest
  end.

Definition bracketsClosed (s : jsstring) : bool := bracketsClosedFrom false s.

Definition isAngle (c : char) : bool := ((c =? chr "<") || (c =? chr ">"))%N.

(** The angle brackets of a text, in order. *)
Definition angles (s : jsstring) : jsstring := filter isAngle s.

(** The code units that the escapes of the sanitizer replace: the
    non-breaking space, [[], [_] and [{]. *)
Definition isEscaped (c : char) : bool :=
  ((c =? nbsp) || (c =? chr "[") || (c =? chr "_") || (c =? chr "{"))%N.

(** The rewrites of the sanitizer that are not escapes: the headings, the
    line feeds before tags and the [@TJS-type] paragraphs. *)
Definition structuralRewrites (content : jsstring) : jsstring :=
  removeTjsType (joinLinesBeforeTags (convertHeadings content)).

(** [inert q r]: no place where the shape [q] fits overlaps an occurrence
    of the text [r], whatever stands around it. *)
Definition inert (q : Shape) (r : jsstring) : Prop :=
  r <> []
  /\ (forall pre y, length pre < length q -> fits q (pre ++ r ++ y) = false)
  /\ (forall r1 c r2 y, r = r1 ++ c :: r2 -> fits q (c :: r2 ++ y) = false).

(** The shape is refuted by the first code units of the text. *)
Fixpoint clash (q : Shape) (r : jsstring) : bool :=
  match q, r with
  | p :: q', c :: r' => negb (p c) || clash q' r'
  | _, _ => false
  end.

(** The test holds of every non-empty tail of the text. *)
Fixpoint allTails (test : jsstring -> bool) (r : jsstring) : bool :=
  match r with
  | [] => true
  | _ :: r' => test r && allTails test r'
  end.

Definition headRejected (q : Shape) (r : jsstring) : bool :=
  match r with
  | [] => false
  | c :: _ => forallb (fun p => negb (p c)) (tl q)
  end.

(** A test that decides [inert] for the replacements of the sanitizer. *)
Definition inertb (q : Shape) (r : jsstring) : bool :=
  headRejected q r && allTails (clash q) r.

(** [/\n+(?=<)/g] replaced by a space: the rewrite of the line feeds
    before a tag, with the [<] looked at but left in place. *)
Definition newlinesAhead : Matcher :=
  fun s =>
    match newlinesBeforeTag s with
    | Some (len, _) => Some (pred len, lit " ")
    | None => None
    end.

(** A shape whose tests all refuse [<] and, the last one apart, [>]. *)
Fixpoint plainShape (q : Shape) : Prop :=
  match q with
  | [] => True
  | [p] => p (chr "<") = false
  | p :: q' => p (chr "<") = false /\ p (chr ">") = false /\ plainShape q'
  end.

(** The code units with which a match of an escape or of the line feed
    rewrite begins. *)
Definition isStartUnit (c : char) : bool :=
  ((c =? newline) || isEscaped c)%N.

(** The second code unit of a match that begins with [<]: [</h...],
    [<h...] or [<p>...]. *)
Definition isTagSecond (c : char) : bool :=
  ((c =? chr "h") || (c =? chr "/") || (c =? chr "p"))%N.

(** A rewrite of the sanitizer may match at the start of this text. *)
Definition mayStart (t : jsstring) : bool :=
  match t with
  | [] => false
  | c :: rest =>
      isStartUnit c
      || ((c =? chr "<")%N
          && match rest with
             | [] => false
             | c1 :: _ => isTagSecond c1
             end)
  end.

(** No rewrite can match at the start of this text, whatever follows. *)
Definition cannotStart (t : jsstring) : bool :=
  match t with
  | [] => true
  | c :: rest =>
      negb (isStartUnit c)
      && (negb (c =? chr "<")%N
          || match rest with
             | [] => false
             | c1 :: _ => negb (isTagSecond c1)
             end)
  end.

(** Every [<] of the text is followed by [/]. *)
Fixpoint tagsClose (s : jsstring) : bool :=
  match s with
  | [] => true
  | c :: rest =>
      (negb (c =? chr "<")%N
       || match rest with
          | [] => false
          | c1 :: _ => (c1 =? chr "/")%N
          end)
      && tagsClose rest
  end.

(** What the matches of a rewrite look like: they are not empty, they
    begin as [mayStart] says, and a [<] after their first code unit is
    followed by [/]. *)
Definition footprint (m : Matcher) : Prop :=
  forall t len r,
    m t = Some (len, r) ->
    1 <= len /\ mayStart t = true /\ tagsClose (tl (firstn len t)) = true.

(** [avoids m r]: no match of [m] overlaps an occurrence of [r]. *)
Definition avoids (m : Matcher) (r : jsstring) : Prop :=
  (forall pre y len rep,
      m (pre ++ r ++ y) = Some (len, rep) -> 1 <= len <= length pre)
  /\ (forall r1 c r2 y, r = r1 ++ c :: r2 -> m (c :: r2 ++ y) = None).

(** *** Further vocabulary *)

(** A path separator becomes a hyphen, any other code unit stays. *)
Definition hyphenate (c : char) : char :=
  if isPathSeparator c then chr "-" else c.

(** What [getAnchor] makes of one code unit of a URL of Basic Latin and
    Latin-1. *)
Definition anchorUnit (c : char) : char := lowerUnit (hyphenate c).

(** A line feed directly before a [<]. *)
Definition lineFeedBeforeTag : Shape := [N.eqb newline; N.eqb (chr "<")].

(** The text does not begin with a non-breaking space. *)
Definition indentEnds (s : jsstring) : Prop :=
  match s with
  | [] => True
  | c :: _ => c <> nbsp
  end.

(** A comparator that never puts two names each after the other and
    whose "not after" is transitive. *)
Definition consistentComparator (cmp : jsstring -> jsstring -> comparison)
  : Prop :=
  (forall a b, cmp a b = Gt -> cmp b a <> Gt)
  /\ (forall a b c, cmp a b <> Gt -> cmp b c <> Gt -> cmp a c <> Gt).

(** [event1] is not sorted after [event2]. *)
Definition nameNotAfter {host : Host} (event1 event2 : PageEvent) : Prop :=
  compareEventNames event1 event2 <> Gt.

(** A member whose type is an array of inline objects with a documented
    field. *)
Definition arrayOfRecords : DeclarationReflection :=
  Declaration (lit "items") KProperty None
    (Some (ArrayType
             (ReflectionType
                (Declaration (lit "__type") KTypeAlias None None
                   (Some [leafOnly])))))
    None.

(** A project without declarations. *)
Definition emptyProject : ProjectReflection :=
  {| project_name := lit "schema"; project_children := [] |}.

(** * Properties *)

Lemma jsstring_eqb_eq a b : jsstring_eqb a b = true <-> a = b.
Proof.
  unfold jsstring_eqb. destruct (list_eq_dec N.eq_dec a b); split; congruence.
Qed.

Lemma jsstring_eqb_refl a : jsstring_eqb a a = true.
Proof. now apply jsstring_eqb_eq. Qed.

Lemma jsstring_eqb_neq a b : jsstring_eqb a b = false <-> a <> b.
Proof.
  unfold jsstring_eqb. destruct (list_eq_dec N.eq_dec a b); split; congruence.
Qed.

Section CommentFilterProperties.
Context {host : Host}.

Lemma hasComment_unfold (member : DeclarationReflection) :
  hasComment member =
  Reflection_hasComment member || existsb hasComment (nestedChildren member).
Proof.
  destruct member as [n k c t cs]. unfold nestedChildren. simpl.
  destruct t as [[decl | | | | |]|]; try reflexivity.
  destruct (decl_children decl); reflexivity.
Qed.

Lemma hasComment_of_nested c d :
  nestedIn c d -> Reflection_hasComment c = true -> hasComment d = true.
Proof.
  induction 1 as [d | c m d Hin _ IH]; intros Hc; rewrite hasComment_unfold.
  - now rewrite Hc.
  - apply orb_true_iff. right. apply existsb_exists. eauto.
Qed.

Lemma nested_of_hasComment :
  forall d, hasComment d = true ->
            exists c, nestedIn c d /\ Reflection_hasComment c = true.
Proof.
  fix IH 1. intros d.
  rewrite hasComment_unfold.
  destruct (Reflection_hasComment d) eqn:Hd.
  - intros _. exists d. split; [constructor | assumption].
  - simpl. unfold nestedChildren.
    destruct d as [n k c t cs]. simpl in *.
    destruct t as [[decl | | | | |]|]; try discriminate.
    destruct decl as [n' k' c' t' cs']. simpl.
    destruct cs' as [children|]; try discriminate.
    intros Hex.
    assert (Hsub : exists m, In m children /\
              exists c0, nestedIn c0 m /\ Reflection_hasComment c0 = true).
    { clear Hd. induction children as [|m rest IHrest]; simpl in Hex.
      - discriminate.
      - apply orb_true_iff in Hex. destruct Hex as [Hm | Hrest].
        + exists m. split; [now left | apply IH, Hm].
        + destruct (IHrest Hrest) as (m' & Hin & Hm').
          exists m'. split; [now right | assumption]. }
    destruct Hsub as (m & Hin & c0 & Hnest & Hc0).
    exists c0. split; [| assumption].
    eapply nestedIn_field; [| exact Hnest]. exact Hin.
Qed.

(** C1.  A declaration has documentation exactly when the host reports a
    comment on it or a field of its inline object type has documentation,
    by the same predicate; equivalently, when it or something nested in it
    through inline object types has a comment.  So in a record nested three
    levels deep a comment on the innermost field documents every level. *)
Theorem C1_hasDocumentation_iff (S : DeclarationReflection) :
  (hasComment S = true <->
   Reflection_hasComment S = true \/
   exists declaration children child,
     decl_type S = Some (ReflectionType declaration) /\
     decl_children declaration = Some children /\
     In child children /\ hasComment child = true)
  /\ (hasComment S = true <->
      exists D, nestedIn D S /\ Reflection_hasComment D = true)
  /\ (forall middle leaf,
        In middle (nestedChildren S) ->
        In leaf (nestedChildren middle) ->
        Reflection_hasComment leaf = true ->
        hasComment leaf = true /\ hasComment middle = true
        /\ hasComment S = true).
Proof.
  split; [| split].
  - rewrite hasComment_unfold, orb_true_iff, existsb_exists.
    unfold nestedChildren. split.
    + intros [H | (child & Hin & Hc)]; [now left | right].
      destruct (decl_type S) as [[declaration | | | | |]|]; try contradiction.
      destruct (decl_children declaration) as [children|] eqn:E;
        try contradiction.
      exists declaration, children, child. auto.
    + intros [H | (declaration & children & child & Ht & Hc & Hin & Hh)];
        [now left | right].
      rewrite Ht, Hc. eauto.
  - split.
    + apply nested_of_hasComment.
    + intros (D & Hn & HD). eapply hasComment_of_nested; eauto.
  - intros middle leaf Hm Hl Hc.
    assert (L : nestedIn leaf leaf) by constructor.
    assert (M : nestedIn leaf middle) by (eapply nestedIn_field; eauto).
    assert (T : nestedIn leaf S) by (eapply nestedIn_field; eauto).
    repeat split; eapply hasComment_of_nested; eauto.
Qed.

End CommentFilterProperties.

(** The record [{ outer: { middle: { leaf } } }] with its only comment on
    [leaf] is documented at every level. *)
Lemma C1_three_levels_witness :
  Reflection_hasComment (Host := sampleHost) outerOfLeaf = false
  /\ Reflection_hasComment (Host := sampleHost) middleOfLeaf = false
  /\ hasComment (host := sampleHost) leafOnly = true
  /\ hasComment (host := sampleHost) middleOfLeaf = true
  /\ hasComment (host := sampleHost) outerOfLeaf = true.
Proof.
  split; [reflexivity | split; [reflexivity |]].
  apply (proj2 (proj2 (C1_hasDocumentation_iff (host := sampleHost) outerOfLeaf))).
  - simpl. left. reflexivity.
  - simpl. left. reflexivity.
  - reflexivity.
Defined.

(** ** The replacement engine *)

Section Engine.
Variable m : Matcher.

Lemma replaceAllFrom_skip (k : nat) (s : jsstring) :
  replaceAllFrom m k s = replaceAllFrom m 0 (skipn k s).
Proof.
  revert k. induction s as [|c rest IH]; intros [|k]; simpl; auto.
Qed.

Lemma replaceAll_nil : replaceAll m [] = [].
Proof. reflexivity. Qed.

Lemma replaceAll_match (s : jsstring) (len : nat) (replacement : jsstring) :
  s <> [] -> m s = Some (len, replacement) ->
  replaceAll m s = replacement ++ replaceAll m (skipn (pred len) (tl s)).
Proof.
  intros Hs Hm. destruct s as [|c rest]; [congruence|].
  unfold replaceAll. simpl. rewrite Hm. now rewrite replaceAllFrom_skip.
Qed.

Lemma replaceAll_copy (c : char) (rest : jsstring) :
  m (c :: rest) = None -> replaceAll m (c :: rest) = c :: replaceAll m rest.
Proof. intros Hm. unfold replaceAll. simpl. now rewrite Hm. Qed.

(** Every code unit of the result is copied from the input at a place
    where the pattern fails, or belongs to a replacement. *)
Lemma replaceAllFrom_Forall (P Q : char -> Prop) :
  (forall t len replacement, m t = Some (len, replacement) ->
                             Forall P replacement) ->
  (forall c t, m (c :: t) = None -> Q c -> P c) ->
  forall s k, Forall Q s -> Forall P (replaceAllFrom m k s).
Proof.
  intros Hrep Hcopy. induction s as [|c rest IH]; intros k HQ; simpl.
  - constructor.
  - inversion HQ as [|? ? Hc Hrest]; subst.
    destruct k as [|k]; [| now apply IH].
    destruct (m (c :: rest)) as [[len replacement]|] eqn:E.
    + apply Forall_app. split; [eapply Hrep; eauto | now apply IH].
    + constructor; [eapply Hcopy; eauto | now apply IH].
Qed.

End Engine.

Lemma Forall_trivial_True (s : jsstring) : Forall (fun _ => True) s.
Proof. induction s; constructor; auto. Qed.

(** ** Categories *)

Lemma join_intersperse (sep : jsstring) (parts : list jsstring) :
  join sep parts = concat (intersperse sep parts).
Proof.
  induction parts as [|p [|q rest] IH]; simpl in *.
  - reflexivity.
  - now rewrite app_nil_r.
  - now rewrite IH.
Qed.

Section CategoryProperties.
Context {host : Host}.

(** C4.  The category of a declaration is the texts of the
    parts of its category tag with one space between neighbours, and the
    empty string when the comment or the tag is missing. *)
Theorem C4_category_joined_by_spaces (d : DeclarationReflection) :
  (forall categoryTag,
      categoryTagOfDeclaration d = Some categoryTag ->
      getReflectionCategory d
      = concat (intersperse (lit " ") (map text (content categoryTag))))
  /\ (categoryTagOfDeclaration d = None -> getReflectionCategory d = []).
Proof.
  unfold getReflectionCategory, categoryTagOfDeclaration.
  split.
  - intros categoryTag ->. apply join_intersperse.
  - now intros ->.
Qed.

(** C5.  The heading of a bucket is [Common Types] for the
    empty label; a label that starts with one of the letters a-z of Basic
    Latin is put between backquotes; any other label, one with another
    lower-case initial included, is written as it is. *)
Theorem C5_category_heading (category : jsstring) :
  (category = [] -> renderCategory category = lit "## Common Types" ++ [newline])
  /\ (forall c rest,
        category = c :: rest -> (chr "a" <= c <= chr "z")%N ->
        renderCategory category
        = lit "## " ++ lit "`" ++ category ++ lit "`" ++ [newline])
  /\ (forall c rest,
        category = c :: rest -> ~ (chr "a" <= c <= chr "z")%N ->
        renderCategory category = lit "## " ++ category ++ [newline]).
Proof.
  unfold renderCategory. split; [| split].
  - now intros ->.
  - intros c rest -> Hc. unfold isLowerAsciiLetter.
    replace (97 <=? c)%N with true by (symmetry; apply N.leb_le, Hc).
    replace (c <=? 122)%N with true by (symmetry; apply N.leb_le, Hc).
    simpl. now rewrite <- !app_assoc.
  - intros c rest -> Hc. unfold isLowerAsciiLetter.
    destruct (97 <=? c)%N eqn:E1; destruct (c <=? 122)%N eqn:E2;
      try reflexivity.
    exfalso. apply Hc. split; [apply N.leb_le, E1 | apply N.leb_le, E2].
Qed.

End CategoryProperties.

(** A declaration whose category tag has two parts. *)
Lemma C4_two_parts_counterexample :
  let d := Declaration (lit "CallToolRequest") KInterface
             (Some (commentOf (lit "Calls a tool.")
                      [categoryTagOf [textPart (lit "tools/"); codePart (lit "call")]]))
             None None in
  categoryTagOfDeclaration (host := sampleHost) d
  = Some (categoryTagOf [textPart (lit "tools/"); codePart (lit "call")])
  /\ getReflectionCategory (host := sampleHost) d = lit "tools/ call"
  /\ getReflectionCategory (host := sampleHost) d
     <> concat (map text [textPart (lit "tools/"); codePart (lit "call")]).
Proof.
  split; [reflexivity | split; [reflexivity | discriminate]].
Qed.

Lemma C4_category_witness :
  getReflectionCategory (host := sampleHost)
    (Declaration (lit "Tool") KInterface
       (Some (commentOf (lit "A tool.")
                [categoryTagOf [textPart (lit "Server"); textPart (lit "Tools")]]))
       None None)
  = lit "Server Tools"
  /\ getReflectionCategory (host := sampleHost)
       (Declaration (lit "Cursor") KTypeAlias None None None) = [].
Proof.
  split.
  - apply (proj1 (C4_category_joined_by_spaces (host := sampleHost) _)
             (categoryTagOf [textPart (lit "Server"); textPart (lit "Tools")])).
    reflexivity.
  - apply (proj2 (C4_category_joined_by_spaces (host := sampleHost) _)).
    reflexivity.
Defined.

(** [e-acute] is the lower-case partner of [E-acute], yet a label that
    starts with it is not put between backquotes. *)
Lemma C5_latin1_initial_counterexample :
  let label := 233%N :: lit "cole" in
  isLowerUnit 233%N = true
  /\ lowerUnit 201%N = 233%N
  /\ renderCategory label = lit "## " ++ label ++ [newline]
  /\ renderCategory label <> lit "## `" ++ label ++ lit "`" ++ [newline].
Proof.
  intros label. repeat split; try reflexivity. discriminate.
Qed.

Lemma C5_heading_witness :
  renderCategory [] = lit "## Common Types" ++ [newline]
  /\ renderCategory (lit "prompts") = lit "## `prompts`" ++ [newline]
  /\ renderCategory (lit "Tools") = lit "## Tools" ++ [newline].
Proof.
  split; [| split].
  - apply (proj1 (C5_category_heading [])). reflexivity.
  - apply (proj1 (proj2 (C5_category_heading (lit "prompts")))
             (chr "p") (lit "rompts")); [reflexivity |].
    vm_compute. split; discriminate.
  - apply (proj2 (proj2 (C5_category_heading (lit "Tools")))
             (chr "T") (lit "ools")); [reflexivity |].
    vm_compute. intros [H _]. apply H. reflexivity.
Defined.

(** ** Anchors *)

Lemma ReflectionKind_eqb_eq (a b : ReflectionKind) :
  ReflectionKind_eqb a b = true <-> a = b.
Proof. destruct a, b; simpl; split; congruence. Qed.

Lemma lowerUnit_not_upper (c : char) : isUpperUnit (lowerUnit c) = false.
Proof.
  unfold isUpperUnit, lowerUnit.
  destruct ((65 <=? c) && (c <=? 90))%N eqn:E1;
    [| destruct ((192 <=? c) && (c <=? 222) && negb (c =? 215))%N eqn:E2].
  - apply andb_true_iff in E1. destruct E1 as [A B].
    apply N.leb_le in A, B.
    replace (c + 32 <=? 90)%N with false by (symmetry; apply N.leb_gt; lia).
    replace (192 <=? c + 32)%N with false by (symmetry; apply N.leb_gt; lia).
    now rewrite andb_false_r.
  - apply andb_true_iff in E2. destruct E2 as [E2 _].
    apply andb_true_iff in E2. destruct E2 as [A B].
    apply N.leb_le in A, B.
    replace (c + 32 <=? 90)%N with false by (symmetry; apply N.leb_gt; lia).
    replace (c + 32 <=? 222)%N with false by (symmetry; apply N.leb_gt; lia).
    now rewrite !andb_false_r.
  - now rewrite E1, E2.
Qed.

Lemma lowerUnit_fixed (c : char) : isUpperUnit c = false -> lowerUnit c = c.
Proof.
  unfold isUpperUnit, lowerUnit. intros H.
  apply orb_false_iff in H. destruct H as [-> ->]. reflexivity.
Qed.

Lemma lowerUnit_keeps_separators_out (c : char) :
  isPathSeparator c = false -> isPathSeparator (lowerUnit c) = false.
Proof.
  unfold isPathSeparator, lowerUnit, chr. simpl N_of_ascii.
  intros H.
  destruct ((65 <=? c) && (c <=? 90))%N eqn:E1;
    [| destruct ((192 <=? c) && (c <=? 222) && negb (c =? 215))%N eqn:E2];
    try assumption.
  - apply andb_true_iff in E1. destruct E1 as [A _]. apply N.leb_le in A.
    repeat (apply orb_false_iff; split); apply N.eqb_neq; lia.
  - apply andb_true_iff in E2. destruct E2 as [E2 _].
    apply andb_true_iff in E2. destruct E2 as [A _]. apply N.leb_le in A.
    repeat (apply orb_false_iff; split); apply N.eqb_neq; lia.
Qed.

Lemma replaceAll_pathSeparator_clean (s : jsstring) :
  Forall (fun c => isPathSeparator c = false) (replaceAll pathSeparator s).
Proof.
  apply replaceAllFrom_Forall with (Q := fun _ => True).
  - intros [|c t] len replacement; unfold pathSeparator; [discriminate|].
    destruct (orb _ _); [| discriminate].
    intros [= <- <-]. repeat constructor.
  - intros c t. unfold pathSeparator, isPathSeparator.
    destruct (orb _ _); [discriminate | reflexivity].
  - apply Forall_trivial_True.
Qed.

Lemma sample_lowersOnce : lowersOnce (map lowerUnit).
Proof.
  intros s. rewrite map_map. apply map_ext.
  intros c. apply lowerUnit_fixed, lowerUnit_not_upper.
Qed.

Lemma sample_lowersWithoutSeparators : lowersWithoutSeparators (map lowerUnit).
Proof.
  intros s c Hc Hin. apply in_map_iff in Hin. destruct Hin as (x & E & Hx).
  destruct (isPathSeparator x) eqn:Ex.
  - assert (E' : lowerUnit x = x).
    { apply lowerUnit_fixed. unfold isPathSeparator, chr in Ex.
      simpl N_of_ascii in Ex. unfold isUpperUnit.
      apply orb_true_iff in Ex. destruct Ex as [Ex | Ex];
        [apply orb_true_iff in Ex; destruct Ex as [Ex | Ex] |];
        apply N.eqb_eq in Ex; subst x; reflexivity. }
    congruence.
  - apply lowerUnit_keeps_separators_out in Ex. congruence.
Qed.

Lemma sample_lowersLatin1 : lowersLatin1 (map lowerUnit).
Proof. intros s _. reflexivity. Qed.

Section AnchorProperties.
Context {host : Host}.

Lemma getAnchor_undocumented (target : Reflection) :
  undocumentedProperty target -> getAnchor target = Some [].
Proof.
  intros (S & -> & Hk & Hc). unfold getAnchor, kindOf. simpl.
  rewrite Hk, Hc. reflexivity.
Qed.

Lemma getAnchor_derived (target : Reflection) :
  ~ undocumentedProperty target ->
  getAnchor target
  = match super_getFullUrl target with
    | Some url =>
        Some (toLowerCase
                (replaceAll pathSeparator
                   (replaceFirst (lit ".html") [] url)))
    | None => None
    end.
Proof.
  intros Hn. unfold getAnchor.
  destruct target as [d | | | | |]; simpl; try reflexivity.
  destruct (kindOf (OfDeclaration d) KProperty) eqn:Ek; [| reflexivity].
  destruct (hasComment d) eqn:Eh; [reflexivity |].
  exfalso. apply Hn. exists d. repeat split; auto.
  now apply ReflectionKind_eqb_eq.
Qed.

Lemma lowered_without_separators (text : jsstring) :
  lowersWithoutSeparators toLowerCase ->
  Forall (fun c => isPathSeparator c = false) text ->
  Forall (fun c => isPathSeparator c = false) (toLowerCase text).
Proof.
  intros Hlaw Ht. apply Forall_forall. intros c Hc.
  destruct (isPathSeparator c) eqn:Ec; [| reflexivity].
  apply (Hlaw text c Ec) in Hc.
  rewrite Forall_forall in Ht. apply Ht in Hc. congruence.
Qed.

(** C2.  A Property declaration without documentation has the empty
    anchor.  For any other target for which the inherited router has a
    URL, the anchor is a text lowered by [toLowerCase]; with a case
    mapping that leaves a lowered text as it is and brings in no
    separator, the anchor is left as it is by [toLowerCase] and has no
    [.], [/] or [#] in it.  For a target without a URL the inherited call
    throws, and so does [getAnchor]. *)
Theorem C2_anchor_shape (target : Reflection) :
  lowersOnce toLowerCase ->
  lowersWithoutSeparators toLowerCase ->
  (undocumentedProperty target -> getAnchor target = Some [])
  /\ (~ undocumentedProperty target ->
      (forall url,
          super_getFullUrl target = Some url ->
          exists anchor,
            getAnchor target = Some anchor
            /\ (exists text, anchor = toLowerCase text)
            /\ toLowerCase anchor = anchor
            /\ Forall (fun c => isPathSeparator c = false) anchor)
      /\ (super_getFullUrl target = None -> getAnchor target = None)).
Proof.
  intros Honce Hsep. split; [apply getAnchor_undocumented |].
  intros Hn. rewrite (getAnchor_derived Hn). split.
  - intros url ->. eexists. split; [reflexivity | split; [| split]].
    + eexists. reflexivity.
    + apply Honce.
    + apply lowered_without_separators; [exact Hsep |].
      apply replaceAll_pathSeparator_clean.
  - now intros ->.
Qed.

End AnchorProperties.

(** A parameter, and the declaration of an inline object type, are not
    properties, and the inherited router has no URL for them: the
    inherited [getFullUrl] throws, and [getAnchor] returns no string. *)
Lemma C2_target_without_url_counterexample :
  let parameter := OfParameter (lit "cursor") in
  let inlineType :=
    OfDeclaration (Declaration (lit "__type") KTypeAlias None None
                     (Some [leafOnly])) in
  (~ undocumentedProperty (host := sampleHost) parameter
   /\ super_getFullUrl (Host := sampleHost) parameter = None
   /\ forall anchor, getAnchor (host := sampleHost) parameter <> Some anchor)
  /\ (~ undocumentedProperty (host := sampleHost) inlineType
      /\ super_getFullUrl (Host := sampleHost) inlineType = None
      /\ forall anchor,
           getAnchor (host := sampleHost) inlineType <> Some anchor).
Proof.
  intros parameter inlineType. split; (split; [| split]).
  - intros (S & E & _). discriminate E.
  - reflexivity.
  - intros anchor. discriminate.
  - intros (S & E & Hk & _). injection E as <-. discriminate Hk.
  - reflexivity.
  - intros anchor. discriminate.
Qed.

(** The anchors of an undocumented property and of an interface page. *)
Lemma C2_anchor_witness :
  let page := OfDeclaration
                (Declaration (lit "CallToolResult") KInterface None None None) in
  getAnchor (host := sampleHost)
    (OfDeclaration (plainProperty (lit "_meta") None)) = Some []
  /\ exists anchor,
       getAnchor (host := sampleHost) page = Some anchor
       /\ anchor = lit "types-calltoolresult"
       /\ toLowerCase (Host := sampleHost) anchor = anchor
       /\ Forall (fun c => isPathSeparator c = false) anchor.
Proof.
  intros page. split.
  - apply (proj1 (C2_anchor_shape (host := sampleHost) _
                    sample_lowersOnce sample_lowersWithoutSeparators)).
    eexists. repeat split; reflexivity.
  - destruct (proj2 (C2_anchor_shape (host := sampleHost) page
                       sample_lowersOnce sample_lowersWithoutSeparators))
      as [Hurl _].
    + intros (S & E & Hk & _). injection E as <-. discriminate Hk.
    + destruct (Hurl _ eq_refl) as (anchor & Ha & _ & Hl & Hs).
      exists anchor. repeat split; try assumption.
      injection Ha as <-. reflexivity.
Defined.

(** ** Rendering one declaration *)

Lemma selects_filter {A} (keep : A -> bool) (l : list A) :
  selects keep l (filter keep l).
Proof.
  induction l as [|x l IH]; simpl.
  - constructor.
  - destruct (keep x) eqn:E; now constructor.
Qed.

Lemma selects_In {A} (keep : A -> bool) (l l' : list A) :
  selects keep l l' -> forall x, In x l' <-> In x l /\ keep x = true.
Proof.
  induction 1 as [| x l l' Hx _ IH | x l l' Hx _ IH]; intros y; simpl.
  - tauto.
  - rewrite IH. split.
    + intros [<- | [H1 H2]]; auto.
    + intros [[<- | H1] H2]; auto.
  - rewrite IH. split.
    + intros [H1 H2]; auto.
    + intros [[<- | H1] H2]; [congruence | auto].
Qed.

Section FragmentProperties.
Context {host : Host}.

(** C6.  The fragment of a declaration is its heading and the sanitized
    rendering of its own content followed by one member rendering for each
    direct child that has documentation, in the order of the children; a
    child without documentation gets no member rendering.  The own
    content is what the theme makes of the whole declaration, whatever
    its children. *)
Theorem C6_documented_children_rendered
  (reflection : DeclarationReflection) (context : RenderContext JsxNode) :
  exists members,
    selects hasComment (directChildren reflection) members
    /\ (forall C, In C members <->
                  In C (directChildren reflection) /\ hasComment C = true)
    /\ renderReflection reflection context
       = headingLine (getFriendlyFullName reflection) ++ [newline; newline]
         ++ sanitize
              (renderFragment
                 [ ownContent context reflection;
                   JsxArray (map (fun C => JsxElement (member context C))
                                 members) ])
         ++ [newline].
Proof.
  exists (documentedMembers reflection).
  assert (Hsel : selects hasComment (directChildren reflection)
                   (documentedMembers reflection)).
  { unfold directChildren, documentedMembers.
    destruct (decl_children reflection); [apply selects_filter | constructor]. }
  split; [exact Hsel | split].
  - apply selects_In, Hsel.
  - unfold renderReflection, renderContent, renderJsxElements, headingLine,
      ownContent.
    now rewrite <- !app_assoc.
Qed.

(** C10.  The sanitizer runs on the rendered content only.  The heading
    line is put in front afterwards with the friendly full name as the host
    gives it: whatever text the name contains stands in the heading line
    unchanged. *)
Theorem C10_heading_line_not_rewritten
  (reflection : DeclarationReflection) (context : RenderContext JsxNode)
  (before piece after : jsstring) :
  getFriendlyFullName reflection = before ++ piece ++ after ->
  renderReflection reflection context
  = headingLine (getFriendlyFullName reflection) ++ [newline; newline]
    ++ sanitize (renderContent reflection context) ++ [newline]
  /\ headingLine (getFriendlyFullName reflection)
     = (lit "### `" ++ before) ++ piece ++ (after ++ lit "`").
Proof.
  intros Hname. split.
  - unfold renderReflection, headingLine. now rewrite <- !app_assoc.
  - unfold headingLine. rewrite Hname. now rewrite <- !app_assoc.
Qed.

End FragmentProperties.

(** With a theme whose preview lists the children of an interface, the
    undocumented property [extra] of [Tool] gets no member rendering and
    still stands in the fragment, in the preview. *)
Lemma C6_listed_child_counterexample :
  let child := plainProperty (lit "extra") None in
  In child (directChildren toolDeclaration)
  /\ hasComment (host := listingHost) child = false
  /\ renderReflection (host := listingHost) toolDeclaration listing_context
     = lit "### `Tool`" ++ [newline; newline]
       ++ lit "<pre>interface Tool &#x7B; name; extra; }</pre>"
       ++ lit "<section><div data-typedoc-h=" ++ [dquote] ++ lit "4"
       ++ [dquote] ++ lit ">name</div></section>" ++ [newline]
  /\ exists before after,
       renderReflection (host := listingHost) toolDeclaration listing_context
       = before ++ decl_name child ++ after.
Proof.
  intros child. split; [| split; [| split]].
  - right. now left.
  - reflexivity.
  - vm_compute. reflexivity.
  - exists (lit "### `Tool`" ++ [newline; newline]
            ++ lit "<pre>interface Tool &#x7B; name; "),
      (lit "; }</pre><section><div data-typedoc-h=" ++ [dquote] ++ lit "4"
       ++ [dquote] ++ lit ">name</div></section>" ++ [newline]).
    vm_compute. reflexivity.
Qed.

(** A declaration named [Meta_[{<h2>]: the name stands in the heading line
    as it is, while the same text in the content is rewritten. *)
Lemma C10_heading_line_witness :
  let d := Declaration (lit "Meta_[{<h2>") KInterface None None None in
  renderReflection (host := sampleHost) d sample_context
  = lit "### `Meta_[{<h2>`" ++ [newline; newline]
    ++ lit "<p>Meta&#x5F;&#x5B;&#x7B;<div data-typedoc-h=" ++ [dquote]
    ++ lit "2" ++ [dquote] ++ lit "></p>" ++ [newline]
  /\ headingLine (getFriendlyFullName (Host := sampleHost) d)
     = (lit "### `" ++ lit "Meta") ++ lit "_[{<h2>" ++ ([] ++ lit "`").
Proof.
  intros d. split.
  - rewrite (proj1 (@C10_heading_line_not_rewritten sampleHost d sample_context
                      (lit "Meta") (lit "_[{<h2>") [] eq_refl)).
    reflexivity.
  - apply (proj2 (@C10_heading_line_not_rewritten sampleHost d sample_context
                    (lit "Meta") (lit "_[{<h2>") [] eq_refl)).
Defined.

(** ** The map of outputs *)

Lemma jsstring_eqb_sym a b : jsstring_eqb a b = jsstring_eqb b a.
Proof.
  destruct (jsstring_eqb a b) eqn:E.
  - apply jsstring_eqb_eq in E. subst. now rewrite jsstring_eqb_refl.
  - apply jsstring_eqb_neq in E. symmetry. apply jsstring_eqb_neq. congruence.
Qed.

Lemma firstSeen_In (labels : list jsstring) (c : jsstring) :
  In c (firstSeen labels) <-> In c labels.
Proof.
  induction labels as [|a rest IH]; simpl; [tauto|].
  rewrite filter_In, IH. split.
  - intros [H | [H _]]; auto.
  - intros [H | H]; auto.
    destruct (list_eq_dec N.eq_dec a c) as [E | E]; auto.
    right. split; auto. apply negb_true_iff, jsstring_eqb_neq. congruence.
Qed.

Lemma firstSeen_NoDup (labels : list jsstring) : NoDup (firstSeen labels).
Proof.
  induction labels as [|a rest IH]; simpl; constructor.
  - rewrite filter_In. intros [_ H].
    now rewrite jsstring_eqb_refl in H.
  - now apply NoDup_filter.
Qed.

Lemma firstSeen_snoc (labels : list jsstring) (c : jsstring) :
  firstSeen (labels ++ [c])
  = if existsb (fun k => jsstring_eqb k c) (firstSeen labels)
    then firstSeen labels else firstSeen labels ++ [c].
Proof.
  induction labels as [|a rest IH]; simpl; [reflexivity|].
  rewrite IH. destruct (jsstring_eqb a c) eqn:Eac; simpl.
  - apply jsstring_eqb_eq in Eac. subst a.
    destruct (existsb _ (firstSeen rest)); [reflexivity|].
    rewrite filter_app. simpl. rewrite jsstring_eqb_refl. simpl.
    now rewrite app_nil_r.
  - assert (Hex : existsb (fun k => jsstring_eqb k c)
                    (filter (fun c' => negb (jsstring_eqb c' a)) (firstSeen rest))
                  = existsb (fun k => jsstring_eqb k c) (firstSeen rest)).
    { clear IH. induction (firstSeen rest) as [|x l IHl]; simpl; [reflexivity|].
      destruct (jsstring_eqb x a) eqn:Exa; simpl.
      - apply jsstring_eqb_eq in Exa. subst x. rewrite Eac. exact IHl.
      - now rewrite IHl. }
    rewrite Hex.
    destruct (existsb _ (firstSeen rest)); [reflexivity|].
    rewrite filter_app. simpl.
    rewrite (jsstring_eqb_sym c a), Eac. reflexivity.
Qed.

Lemma Map_has_map (f : jsstring -> list jsstring) (keys : list jsstring)
  (c : jsstring) :
  Map_has c (map (fun k => (k, f k)) keys)
  = existsb (fun k => jsstring_eqb k c) keys.
Proof.
  unfold Map_has. induction keys as [|k keys IH]; simpl; [reflexivity|].
  now rewrite IH.
Qed.

Lemma existsb_eqb_In (keys : list jsstring) (c : jsstring) :
  existsb (fun k => jsstring_eqb k c) keys = true <-> In c keys.
Proof.
  rewrite existsb_exists. split.
  - intros (k & Hin & E). apply jsstring_eqb_eq in E. now subst.
  - intros H. exists c. split; [assumption | apply jsstring_eqb_refl].
Qed.

Lemma Map_set_absent (c : jsstring) (v : list jsstring) (m : OutputMap) :
  Map_has c m = false -> Map_set c v m = m ++ [(c, v)].
Proof.
  unfold Map_has. induction m as [|[k w] m IH]; simpl; [reflexivity|].
  intros H. apply orb_false_iff in H. destruct H as [-> H].
  now rewrite IH.
Qed.

Lemma Map_push_absent (c item : jsstring) (m : OutputMap) :
  Map_has c m = false -> Map_push c item m = m.
Proof.
  unfold Map_has. induction m as [|[k w] m IH]; simpl; [reflexivity|].
  intros H. apply orb_false_iff in H. destruct H as [-> H].
  now rewrite IH.
Qed.

Lemma Map_push_app_absent (c item : jsstring) (m m' : OutputMap) :
  Map_has c m = false -> Map_push c item (m ++ m') = m ++ Map_push c item m'.
Proof.
  unfold Map_has. induction m as [|[k w] m IH]; simpl; [reflexivity|].
  intros H. apply orb_false_iff in H. destruct H as [-> H].
  now rewrite IH.
Qed.

Lemma Map_push_map (f : jsstring -> list jsstring) (keys : list jsstring)
  (c item : jsstring) :
  NoDup keys ->
  Map_push c item (map (fun k => (k, f k)) keys)
  = map (fun k => (k, if jsstring_eqb k c then f k ++ [item] else f k)) keys.
Proof.
  induction 1 as [|k keys Hk Hnd IH]; simpl; [reflexivity|].
  destruct (jsstring_eqb k c) eqn:E.
  - apply jsstring_eqb_eq in E. subst k. f_equal.
    apply map_ext_in. intros k Hin.
    destruct (jsstring_eqb k c) eqn:E; [| reflexivity].
    apply jsstring_eqb_eq in E. subst. contradiction.
  - now rewrite IH.
Qed.

Lemma Map_get_map (f : jsstring -> list jsstring) (keys : list jsstring)
  (c : jsstring) :
  In c keys -> Map_get c (map (fun k => (k, f k)) keys) = Some (f c).
Proof.
  induction keys as [|k keys IH]; simpl; [tauto|].
  intros Hin. destruct (jsstring_eqb k c) eqn:E.
  - apply jsstring_eqb_eq in E. now subst.
  - destruct Hin as [-> | Hin]; [now rewrite jsstring_eqb_refl in E | auto].
Qed.

(** ** Sorting *)

Lemma insertSorted_perm {A} (cmp : A -> A -> comparison) (x : A) (l : list A) :
  Permutation (insertSorted cmp x l) (x :: l).
Proof.
  induction l as [|y l IH]; simpl; [reflexivity|].
  destruct (cmp x y); try reflexivity.
  rewrite IH. apply perm_swap.
Qed.

Lemma sortWith_perm {A} (cmp : A -> A -> comparison) (l : list A) :
  Permutation (sortWith cmp l) l.
Proof.
  induction l as [|x l IH]; simpl; [reflexivity|].
  rewrite insertSorted_perm. now constructor.
Qed.

Lemma sortWith_In {A} (cmp : A -> A -> comparison) (l : list A) (x : A) :
  In x (sortWith cmp l) <-> In x l.
Proof.
  split; apply Permutation_in;
    [apply sortWith_perm | symmetry; apply sortWith_perm].
Qed.

Lemma filter_perm {A} (keep : A -> bool) (l l' : list A) :
  Permutation l l' -> Permutation (filter keep l) (filter keep l').
Proof.
  induction 1 as [| x l l' _ IH | x y l | l l' l'' _ IH1 _ IH2]; simpl.
  - constructor.
  - destruct (keep x); [now constructor | assumption].
  - destruct (keep x), (keep y); try reflexivity. apply perm_swap.
  - now transitivity (filter keep l').
Qed.

Lemma compareCodeUnits_refl (a : jsstring) : compareCodeUnits a a = Eq.
Proof.
  induction a as [|x a IH]; simpl; [reflexivity|].
  now rewrite N.compare_refl.
Qed.

Lemma compareCodeUnits_eq (a b : jsstring) :
  compareCodeUnits a b = Eq -> a = b.
Proof.
  revert b. induction a as [|x a IH]; intros [|y b]; simpl;
    try discriminate; [reflexivity|].
  destruct (N.compare_spec x y) as [-> | |]; try discriminate.
  intros H. f_equal. now apply IH.
Qed.

Lemma compareCodeUnits_antisym (a b : jsstring) :
  compareCodeUnits b a = CompOpp (compareCodeUnits a b).
Proof.
  revert b. induction a as [|x a IH]; intros [|y b]; simpl; try reflexivity.
  rewrite (N.compare_antisym x y).
  destruct (N.compare x y); simpl; auto.
Qed.

Lemma codeUnitLt_trans (a b c : jsstring) :
  codeUnitLt a b -> codeUnitLt b c -> codeUnitLt a c.
Proof.
  unfold codeUnitLt. revert b c.
  induction a as [|x a IH]; intros [|y b] [|z c]; simpl;
    try discriminate; try reflexivity.
  destruct (N.compare_spec x y) as [-> | Hxy | Hxy]; try discriminate.
  - destruct (N.compare z z) eqn:E; rewrite N.compare_refl in E;
      try discriminate.
    destruct (N.compare y z); auto. apply IH.
  - intros _. destruct (N.compare_spec y z) as [-> | Hyz | Hyz];
      try discriminate; intros _.
    + now apply N.compare_lt_iff in Hxy as ->.
    + assert (H : (x < z)%N) by lia. now apply N.compare_lt_iff in H as ->.
Qed.

Lemma codeUnitLt_irrefl (a : jsstring) : ~ codeUnitLt a a.
Proof. unfold codeUnitLt. now rewrite compareCodeUnits_refl. Qed.

Lemma insertSorted_sorted (x : jsstring) (l : list jsstring) :
  StronglySorted codeUnitLt l -> ~ In x l ->
  StronglySorted codeUnitLt (insertSorted compareCodeUnits x l).
Proof.
  induction 1 as [|y l Hs IH Hy]; intros Hx; simpl.
  - repeat constructor.
  - destruct (compareCodeUnits x y) eqn:E.
    + apply compareCodeUnits_eq in E. subst. exfalso. apply Hx. now left.
    + constructor; [now constructor|].
      constructor; [exact E|].
      eapply Forall_impl; [| exact Hy].
      intros z Hz. eapply codeUnitLt_trans; eauto.
    + constructor.
      * apply IH. intros H. apply Hx. now right.
      * eapply Permutation_Forall; [symmetry; apply insertSorted_perm|].
        constructor; [| assumption].
        unfold codeUnitLt. rewrite compareCodeUnits_antisym, E. reflexivity.
Qed.

Lemma sortWith_sorted (l : list jsstring) :
  NoDup l -> StronglySorted codeUnitLt (sortWith compareCodeUnits l).
Proof.
  induction 1 as [|x l Hx _ IH]; simpl; [constructor|].
  apply insertSorted_sorted; [assumption|].
  now rewrite sortWith_In.
Qed.

(** A strictly ascending list is determined by its elements. *)
Lemma sorted_unique (l1 l2 : list jsstring) :
  StronglySorted codeUnitLt l1 -> StronglySorted codeUnitLt l2 ->
  (forall x, In x l1 <-> In x l2) -> l1 = l2.
Proof.
  intros H1. revert l2.
  induction H1 as [|a l1 Hs1 IH Ha]; intros l2 H2 Hin.
  - destruct l2 as [|b l2]; [reflexivity|].
    exfalso. apply (proj2 (Hin b)). now left.
  - destruct H2 as [|b l2 Hs2 Hb].
    + exfalso. apply (proj1 (Hin a)). now left.
    + rewrite Forall_forall in Ha, Hb.
      assert (a = b) as ->.
      { destruct (proj1 (Hin a) (or_introl eq_refl)) as [E | Hab];
          [congruence|].
        destruct (proj2 (Hin b) (or_introl eq_refl)) as [E | Hba];
          [congruence|].
        exfalso. apply (@codeUnitLt_irrefl a).
        eapply codeUnitLt_trans; [apply Ha, Hba | apply Hb, Hab]. }
      f_equal. apply IH; [assumption|].
      intros x. split; intros Hx.
      * destruct (proj1 (Hin x) (or_intror Hx)) as [E | H]; [| assumption].
        subst. exfalso. apply (@codeUnitLt_irrefl x). now apply Ha.
      * destruct (proj2 (Hin x) (or_intror Hx)) as [E | H]; [| assumption].
        subst. exfalso. apply (@codeUnitLt_irrefl x). now apply Hb.
Qed.

(** ** Assembling the page *)

Section PageProperties.
Context {host : Host}.

Lemma bucketOf_snoc (done : list PageEvent) (event : PageEvent) (k : jsstring) :
  bucketOf (done ++ [event]) k
  = bucketOf done k
    ++ (if jsstring_eqb (eventCategory event) k
        then [eventFragment event] else []).
Proof.
  unfold bucketOf. rewrite filter_app, map_app. simpl.
  destruct (jsstring_eqb (eventCategory event) k); reflexivity.
Qed.

Lemma bucketOf_unseen (done : list PageEvent) (c : jsstring) :
  ~ In c (map eventCategory done) -> bucketOf done c = [renderCategory c].
Proof.
  intros Hc. unfold bucketOf. f_equal.
  replace (filter _ done) with (@nil PageEvent); [reflexivity|].
  symmetry. induction done as [|e done IH]; simpl in *; [reflexivity|].
  destruct (jsstring_eqb (eventCategory e) c) eqn:E.
  - apply jsstring_eqb_eq in E. tauto.
  - apply IH. tauto.
Qed.

(** One turn of the loop takes the map of the declarations seen so far to
    the map with the next declaration added. *)
Lemma collectEvent_bucketsOf (done : list PageEvent) (event : PageEvent) :
  isDeclarationReflectionEvent event = true ->
  collectEvent (bucketsOf done) event = bucketsOf (done ++ [event]).
Proof.
  unfold isDeclarationReflectionEvent, collectEvent.
  destruct (asDeclaration (model event)) as [declaration|] eqn:Ed;
    [intros _ | discriminate].
  assert (Ec : getReflectionCategory declaration = eventCategory event)
    by (unfold eventCategory; now rewrite Ed).
  assert (Er : renderReflection declaration (getRenderContext event)
               = eventFragment event)
    by (unfold eventFragment; now rewrite Ed).
  rewrite Ec, Er. clear Ec Er Ed declaration.
  set (c := eventCategory event). set (r := eventFragment event).
  unfold bucketsOf.
  replace (map eventCategory (done ++ [event]))
    with (map eventCategory done ++ [c]) by (now rewrite map_app).
  rewrite firstSeen_snoc, Map_has_map.
  set (keys := firstSeen (map eventCategory done)).
  assert (Hnd : NoDup keys) by apply firstSeen_NoDup.
  destruct (existsb (fun k => jsstring_eqb k c) keys) eqn:Ex.
  - rewrite Map_push_map by assumption.
    apply map_ext. intros k. rewrite bucketOf_snoc. fold c r.
    rewrite (jsstring_eqb_sym c k).
    destruct (jsstring_eqb k c); [reflexivity | now rewrite app_nil_r].
  - assert (Hc : ~ In c keys).
    { intros H. apply existsb_eqb_In in H. congruence. }
    rewrite Map_set_absent by (now rewrite Map_has_map).
    rewrite Map_push_app_absent by (now rewrite Map_has_map).
    simpl. rewrite jsstring_eqb_refl. rewrite map_app. simpl. f_equal.
    + apply map_ext_in. intros k Hk. rewrite bucketOf_snoc. fold c r.
      destruct (jsstring_eqb c k) eqn:E; [| now rewrite app_nil_r].
      apply jsstring_eqb_eq in E. subst k. contradiction.
    + rewrite bucketOf_snoc. fold c r. rewrite jsstring_eqb_refl.
      rewrite bucketOf_unseen; [reflexivity|].
      intros H. apply Hc. now apply firstSeen_In.
Qed.

Lemma fold_collectEvent (declarations done : list PageEvent) :
  Forall (fun e => isDeclarationReflectionEvent e = true) declarations ->
  fold_left collectEvent declarations (bucketsOf done)
  = bucketsOf (done ++ declarations).
Proof.
  revert done. induction declarations as [|e declarations IH];
    intros done Hall; simpl.
  - now rewrite app_nil_r.
  - inversion Hall as [|? ? He Hrest]; subst.
    rewrite collectEvent_bucketsOf by assumption.
    rewrite IH by assumption. now rewrite <- app_assoc.
Qed.

Lemma declarationEventsOf_perm (events : list PageEvent) :
  Permutation (declarationEventsOf events)
              (filter isDeclarationReflectionEvent events).
Proof. apply sortWith_perm. Qed.

Lemma declarationEventsOf_all (events : list PageEvent) :
  Forall (fun e => isDeclarationReflectionEvent e = true)
         (declarationEventsOf events).
Proof.
  apply Forall_forall. intros e He.
  apply (Permutation_in _ (declarationEventsOf_perm events)) in He.
  now apply filter_In in He.
Qed.

Lemma outputsByCategoryOf_buckets (events : list PageEvent) :
  outputsByCategoryOf events = bucketsOf (declarationEventsOf events).
Proof.
  unfold outputsByCategoryOf.
  change (@nil (jsstring * list jsstring)) with (bucketsOf []).
  now rewrite fold_collectEvent by apply declarationEventsOf_all.
Qed.

(** The labels of the page, in the order in which their buckets appear. *)
Lemma pageElements_buckets (events : list PageEvent) :
  let declarations := declarationEventsOf events in
  let categories :=
    sortWith compareCodeUnits (firstSeen (map eventCategory declarations)) in
  pageElements events = flat_map (bucketOf declarations) categories
  /\ StronglySorted codeUnitLt categories
  /\ (forall c, In c categories <->
                exists e, In e declarations /\ eventCategory e = c).
Proof.
  intros declarations categories.
  assert (Hin : forall c, In c categories <->
                          In c (map eventCategory declarations)).
  { intros c. unfold categories. now rewrite sortWith_In, firstSeen_In. }
  split; [| split].
  - unfold pageElements. rewrite outputsByCategoryOf_buckets.
    fold declarations. unfold bucketsOf at 2, Map_keys.
    rewrite map_map. simpl. rewrite map_id. fold categories.
    rewrite !flat_map_concat_map. f_equal.
    apply map_ext_in. intros c Hc.
    unfold bucketsOf. rewrite Map_get_map; [reflexivity|].
    apply firstSeen_In, Hin, Hc.
  - apply sortWith_sorted, firstSeen_NoDup.
  - intros c. rewrite Hin, in_map_iff. split.
    + intros (e & E & He). eauto.
    + intros (e & He & E). eauto.
Qed.

Lemma load_layout (proj : ProjectReflection) :
  load proj
  = frontMatter ++ [newline] ++ anchorTarget ++ [newline; newline]
    ++ renderPageEvents (buildPageEvents proj).
Proof.
  unfold load, stdout_write, frontMatter, anchorTarget.
  rewrite app_nil_r. simpl app at 1. now rewrite <- !app_assoc.
Qed.




End PageProperties.

Section CategoryOrder.
Context {host : Host}.

Lemma empty_label_least (a : jsstring) : ~ codeUnitLt a [].
Proof. unfold codeUnitLt. destruct a; discriminate. Qed.

Lemma three_labels_sorted :
  StronglySorted codeUnitLt [[]; lit "Tools"; lit "prompts"].
Proof. repeat constructor. Qed.

Lemma capital_before_small (a b : jsstring) :
  initialIs isUpperAsciiLetter a -> initialIs isLowerAsciiLetter b ->
  codeUnitLt a b.
Proof.
  destruct a as [|x a]; [intros [] |]. destruct b as [|y b]; [intros _ [] |].
  unfold initialIs, isUpperAsciiLetter, isLowerAsciiLetter, codeUnitLt.
  intros Hx Hy. apply andb_true_iff in Hx, Hy.
  destruct Hx as [_ Hx]. destruct Hy as [Hy _]. apply N.leb_le in Hx, Hy.
  cbn [compareCodeUnits].
  replace (N.compare x y) with Lt; [reflexivity|].
  symmetry. apply N.compare_lt_iff. lia.
Qed.

Lemma sorted_between {A} (R : A -> A -> Prop) (l1 l2 l3 : list A) (x y : A) :
  StronglySorted R (l1 ++ x :: l2 ++ y :: l3) -> R x y.
Proof.
  induction l1 as [|z l1 IH]; cbn [app]; intros Hs.
  - apply StronglySorted_inv in Hs. destruct Hs as [_ Hx].
    rewrite Forall_forall in Hx. apply Hx.
    apply in_or_app. right. now left.
  - apply StronglySorted_inv in Hs. now apply IH.
Qed.

Lemma stands_before_or_after {A} (a b : A) (l : list A) :
  In a l -> In b l -> a <> b -> standsBefore a b l \/ standsBefore b a l.
Proof.
  intros Ha Hb Hab.
  apply in_split in Ha. destruct Ha as (l1 & l2 & ->).
  apply in_app_or in Hb. destruct Hb as [Hb | [Hb | Hb]].
  - apply in_split in Hb. destruct Hb as (m1 & m2 & ->).
    right. exists m1, m2, l2. now rewrite <- app_assoc.
  - congruence.
  - apply in_split in Hb. destruct Hb as (m1 & m2 & ->).
    left. exists l1, m1, m2. reflexivity.
Qed.

(** C3.  The buckets are emitted in strictly ascending order
    of the code units of their labels: the empty label comes first and a
    label whose initial is one of [A] to [Z] comes before a label whose
    initial is one of [a] to [z].  For three declarations labelled
    [Tools], the empty label and [prompts] the page is the bucket
    [Common Types], then the bucket [Tools], then the bucket
    [`prompts`]. *)
Theorem C3_buckets_in_code_unit_order (events : list PageEvent) :
  (exists categories,
      StronglySorted codeUnitLt categories
      /\ (forall c, In c categories <->
                    exists e, In e (declarationEventsOf events)
                              /\ eventCategory e = c)
      /\ (forall c rest, categories = c :: rest -> In [] categories -> c = [])
      /\ (forall a b,
             In a categories -> In b categories ->
             initialIs isUpperAsciiLetter a ->
             initialIs isLowerAsciiLetter b ->
             standsBefore a b categories)
      /\ pageElements events
         = flat_map (bucketOf (declarationEventsOf events)) categories)
  /\ (forall e1 e2 e3,
         events = [e1; e2; e3] ->
         Forall (fun e => isDeclarationReflectionEvent e = true) events ->
         map eventCategory events = [lit "Tools"; []; lit "prompts"] ->
         renderPageEvents events
         = join [newline]
             [ lit "## Common Types" ++ [newline]; eventFragment e2;
               lit "## Tools" ++ [newline]; eventFragment e1;
               lit "## `prompts`" ++ [newline]; eventFragment e3 ]).
Proof.
  destruct (pageElements_buckets events) as (Hel & Hs & Hin).
  split.
  - eexists.
    split; [exact Hs | split; [exact Hin | split; [| split; [| exact Hel]]]].
    + intros c rest E Hempty. rewrite E in Hs, Hempty.
      destruct Hempty as [-> | Hrest]; [reflexivity|].
      apply StronglySorted_inv in Hs. destruct Hs as [_ Hc].
      rewrite Forall_forall in Hc. exfalso.
      apply (@empty_label_least c). now apply Hc.
    + intros a b Ha Hb Hupper Hlower.
      assert (Hlt : codeUnitLt a b) by now apply capital_before_small.
      assert (Hab : a <> b).
      { intros ->. now apply (@codeUnitLt_irrefl b). }
      destruct (@stands_before_or_after _ a b _ Ha Hb Hab)
        as [H | (l1 & l2 & l3 & E)]; [exact H |].
      exfalso. rewrite E in Hs. apply sorted_between in Hs.
      apply (@codeUnitLt_irrefl a).
      now apply (@codeUnitLt_trans a b a).
  - intros e1 e2 e3 -> Hall Hcats.
    unfold renderPageEvents. f_equal. rewrite Hel.
    set (declarations := declarationEventsOf [e1; e2; e3]) in *.
    assert (Hperm : Permutation declarations [e1; e2; e3]).
    { unfold declarations. rewrite declarationEventsOf_perm.
      inversion Hall as [|? ? H1 Hall1]; subst.
      inversion Hall1 as [|? ? H2 Hall2]; subst.
      inversion Hall2 as [|? ? H3 _]; subst.
      simpl. now rewrite H1, H2, H3. }
    injection Hcats as C1 C2 C3.
    assert (Hkeys : sortWith compareCodeUnits
                      (firstSeen (map eventCategory declarations))
                    = [[]; lit "Tools"; lit "prompts"]).
    { apply sorted_unique; [exact Hs | apply three_labels_sorted |].
      intros c. rewrite Hin. split.
      - intros (e & He & E).
        apply (Permutation_in _ Hperm) in He. simpl in He.
        destruct He as [<- | [<- | [<- | []]]]; simpl; rewrite <- E; auto.
      - simpl. intros [<- | [<- | [<- | []]]].
        + exists e2. split; [| assumption].
          apply (Permutation_in _ (Permutation_sym Hperm)). simpl. auto.
        + exists e1. split; [| assumption].
          apply (Permutation_in _ (Permutation_sym Hperm)). simpl. auto.
        + exists e3. split; [| assumption].
          apply (Permutation_in _ (Permutation_sym Hperm)). simpl. auto. }
    rewrite Hkeys.
    assert (Hbucket : forall c e,
               filter (fun ev => jsstring_eqb (eventCategory ev) c)
                      [e1; e2; e3] = [e] ->
               bucketOf declarations c = [renderCategory c; eventFragment e]).
    { intros c e Hf. unfold bucketOf. f_equal.
      assert (Hp : Permutation [e]
                     (filter (fun ev => jsstring_eqb (eventCategory ev) c)
                             declarations)).
      { rewrite <- Hf. apply filter_perm. now symmetry. }
      apply Permutation_length_1_inv in Hp. now rewrite Hp. }
    cbn [flat_map].
    rewrite (Hbucket [] e2), (Hbucket (lit "Tools") e1),
      (Hbucket (lit "prompts") e3);
      try (simpl; rewrite C1, C2, C3; reflexivity).
    reflexivity.
Qed.

End CategoryOrder.

(** The project with the labels [Tools], none and [prompts]: the bucket
    [Tools] is emitted before the bucket [`prompts`], not after it. *)
Lemma C3_case_order_counterexample :
  let events := buildPageEvents (host := sampleHost) threeLabels in
  map (eventCategory (host := sampleHost)) events
  = [lit "Tools"; []; lit "prompts"]
  /\ pageElements (host := sampleHost) events
     = [ lit "## Common Types" ++ [newline];
         eventFragment (host := sampleHost) (eventOf threeLabels plainDeclaration);
         lit "## Tools" ++ [newline];
         eventFragment (host := sampleHost) (eventOf threeLabels toolsDeclaration);
         lit "## `prompts`" ++ [newline];
         eventFragment (host := sampleHost)
           (eventOf threeLabels promptsDeclaration) ]
  /\ pageElements (host := sampleHost) events
     <> [ lit "## Common Types" ++ [newline];
          eventFragment (host := sampleHost) (eventOf threeLabels plainDeclaration);
          lit "## `prompts`" ++ [newline];
          eventFragment (host := sampleHost)
            (eventOf threeLabels promptsDeclaration);
          lit "## Tools" ++ [newline];
          eventFragment (host := sampleHost)
            (eventOf threeLabels toolsDeclaration) ].
Proof.
  intros events. split; [reflexivity | split; [reflexivity |]].
  intros H. apply (f_equal (fun l => nth 2 l [])) in H.
  vm_compute in H. discriminate H.
Qed.

Lemma C3_order_witness :
  renderPageEvents (host := sampleHost)
    [ eventOf threeLabels toolsDeclaration;
      eventOf threeLabels plainDeclaration;
      eventOf threeLabels promptsDeclaration ]
  = join [newline]
      [ lit "## Common Types" ++ [newline];
        eventFragment (host := sampleHost) (eventOf threeLabels plainDeclaration);
        lit "## Tools" ++ [newline];
        eventFragment (host := sampleHost) (eventOf threeLabels toolsDeclaration);
        lit "## `prompts`" ++ [newline];
        eventFragment (host := sampleHost)
          (eventOf threeLabels promptsDeclaration) ].
Proof.
  apply (proj2 (C3_buckets_in_code_unit_order (host := sampleHost) _)
           _ _ _ eq_refl).
  - repeat constructor.
  - reflexivity.
Defined.

(** ** The sanitizer: escapes *)

Lemma replaceAll_unmatched (m : Matcher) (s : jsstring) :
  (forall pre t, s = pre ++ t -> m t = None) -> replaceAll m s = s.
Proof.
  induction s as [|c rest IH]; intros Hm; [reflexivity|].
  rewrite replaceAll_copy by (apply (Hm []); reflexivity).
  f_equal. apply IH. intros pre t E. apply (Hm (c :: pre)). now rewrite E.
Qed.

Lemma startsWith_head (p : char) (pattern s : jsstring) :
  startsWith (p :: pattern) s = true -> exists rest, s = p :: rest.
Proof.
  destruct s as [|c rest]; simpl; [discriminate|].
  intros H. apply andb_true_iff in H. destruct H as [H _].
  apply N.eqb_eq in H. subst. eauto.
Qed.

(** A search string whose first code unit is absent from the text is not
    found in it. *)
Lemma replaceAll_literal_absent (p : char) (pattern replacement s : jsstring) :
  ~ In p s -> replaceAll (literal (p :: pattern) replacement) s = s.
Proof.
  intros Hp. apply replaceAll_unmatched. intros pre t E.
  unfold literal. destruct (startsWith (p :: pattern) t) eqn:Es; [| reflexivity].
  apply startsWith_head in Es. destruct Es as [rest ->].
  exfalso. apply Hp. rewrite E. apply in_or_app. right. now left.
Qed.

Lemma literal_replacement (pattern replacement t : jsstring) (len : nat)
  (r : jsstring) :
  literal pattern replacement t = Some (len, r) -> r = replacement.
Proof.
  unfold literal. destruct (startsWith pattern t); congruence.
Qed.

Lemma literal_unmatched_head (p : char) (replacement : jsstring) (c : char)
  (t : jsstring) :
  literal [p] replacement (c :: t) = None -> c <> p.
Proof.
  unfold literal. simpl. intros H E. subst.
  now rewrite N.eqb_refl in H.
Qed.

Lemma isLevelDigit_cases (d : char) :
  isLevelDigit d = true ->
  d = 49%N \/ d = 50%N \/ d = 51%N \/ d = 52%N \/ d = 53%N \/ d = 54%N.
Proof.
  unfold isLevelDigit. intros H. apply andb_true_iff in H.
  destruct H as [A B]. apply N.leb_le in A, B. lia.
Qed.

Lemma headingOpen_inv (t : jsstring) (len : nat) (r : jsstring) :
  headingOpen t = Some (len, r) ->
  exists d rest, t = chr "<" :: chr "h" :: d :: rest
                 /\ isLevelDigit d = true /\ len = 3 /\ r = divOpen d.
Proof.
  destruct t as [|c0 [|c1 [|d rest]]]; unfold headingOpen;
    try discriminate.
  destruct (c0 =? chr "<")%N eqn:E0; [| discriminate].
  destruct (c1 =? chr "h")%N eqn:E1; [| discriminate].
  destruct (isLevelDigit d) eqn:Ed; [| discriminate].
  cbn [andb]. intros [= <- <-].
  apply N.eqb_eq in E0, E1. subst. exists d, rest. auto.
Qed.

Lemma headingClose_inv (t : jsstring) (len : nat) (r : jsstring) :
  headingClose t = Some (len, r) ->
  exists d rest, t = chr "<" :: chr "/" :: chr "h" :: d :: chr ">" :: rest
                 /\ isLevelDigit d = true /\ len = 5 /\ r = lit "</div>".
Proof.
  destruct t as [|c0 [|c1 [|c2 [|d [|c4 rest]]]]]; unfold headingClose;
    try discriminate.
  destruct (c0 =? chr "<")%N eqn:E0; [| discriminate].
  destruct (c1 =? chr "/")%N eqn:E1; [| discriminate].
  destruct (c2 =? chr "h")%N eqn:E2; [| discriminate].
  destruct (isLevelDigit d) eqn:Ed; [| discriminate].
  destruct (c4 =? chr ">")%N eqn:E4; [| discriminate].
  cbn [andb]. intros [= <- <-].
  apply N.eqb_eq in E0, E1, E2, E4. subst. exists d, rest. auto.
Qed.

Lemma newlinesBeforeTag_inv (t : jsstring) (len : nat) (r : jsstring) :
  newlinesBeforeTag t = Some (len, r) ->
  exists n, countWhile (N.eqb newline) t = S n /\ len = S (S n)
            /\ r = lit " <"
            /\ exists rest, skipn (S n) t = chr "<" :: rest.
Proof.
  unfold newlinesBeforeTag.
  destruct (countWhile (N.eqb newline) t) as [|n] eqn:En; [discriminate|].
  destruct (skipn (S n) t) as [|c rest] eqn:Es; [discriminate|].
  destruct (c =? chr "<")%N eqn:Ec; [| discriminate].
  intros [= <- <-]. apply N.eqb_eq in Ec. subst.
  exists n. repeat split; eauto.
Qed.

Lemma tjsTypeParagraph_inv (t : jsstring) (len : nat) (r : jsstring) :
  tjsTypeParagraph t = Some (len, r) ->
  r = [] /\ startsWith (lit "<p>@TJS-type ") t = true
  /\ exists n,
      countWhile (fun c => negb (c =? chr "<")%N) (skipn 13 t) = S n
      /\ startsWith (lit "</p>") (skipn (S n) (skipn 13 t)) = true
      /\ len = 13 + S n + 4.
Proof.
  unfold tjsTypeParagraph.
  destruct (startsWith (lit "<p>@TJS-type ") t) eqn:Es; [| discriminate].
  change (length (lit "<p>@TJS-type ")) with 13.
  destruct (countWhile _ (skipn 13 t)) as [|n] eqn:En; [discriminate|].
  destruct (startsWith (lit "</p>") _) eqn:Ec; [| discriminate].
  intros [= <- <-]. repeat split; eauto.
Qed.

Lemma tjsTypeParagraph_at_tag (t : jsstring) (len : nat) (r : jsstring) :
  tjsTypeParagraph t = Some (len, r) -> exists rest, t = chr "<" :: rest.
Proof.
  intros H. apply tjsTypeParagraph_inv in H. destruct H as (_ & Hs & _).
  change (lit "<p>@TJS-type ") with (chr "<" :: lit "p>@TJS-type ") in Hs.
  now apply startsWith_head in Hs.
Qed.

Lemma step_keeps (P : char -> Prop) (m : Matcher) (s : jsstring) :
  (forall t len r, m t = Some (len, r) -> Forall P r) ->
  Forall P s -> Forall P (replaceAll m s).
Proof.
  intros Hr Hs. unfold replaceAll.
  eapply replaceAllFrom_Forall with (Q := P); eauto.
Qed.

Lemma literal_keeps (P : char -> Prop) (pattern replacement s : jsstring) :
  Forall P replacement -> Forall P s ->
  Forall P (replaceAll (literal pattern replacement) s).
Proof.
  intros Hr. apply step_keeps. intros t len r H.
  now rewrite (literal_replacement _ _ _ H).
Qed.

(** After a one-unit search string has been replaced everywhere, the unit
    is gone, unless the replacement brings it back. *)
Lemma literal_removes (p : char) (replacement s : jsstring) :
  Forall (fun c => c <> p) replacement ->
  Forall (fun c => c <> p) (replaceAll (literal [p] replacement) s).
Proof.
  intros Hr. unfold replaceAll.
  apply replaceAllFrom_Forall with (Q := fun _ => True).
  - intros t len r H. now rewrite (literal_replacement _ _ _ H).
  - intros c t H _. eapply literal_unmatched_head; eauto.
  - apply Forall_trivial_True.
Qed.

Lemma convertHeadings_keeps (P : char -> Prop) (s : jsstring) :
  (forall d, isLevelDigit d = true -> Forall P (divOpen d)) ->
  Forall P (lit "</div>") ->
  Forall P s -> Forall P (convertHeadings s).
Proof.
  intros Hopen Hclose Hs. unfold convertHeadings.
  apply step_keeps.
  - intros t len r H. apply headingClose_inv in H.
    destruct H as (d & rest & _ & _ & _ & ->). exact Hclose.
  - apply step_keeps; [| exact Hs].
    intros t len r H. apply headingOpen_inv in H.
    destruct H as (d & rest & _ & Hd & _ & ->). now apply Hopen.
Qed.

Lemma joinLinesBeforeTags_keeps (P : char -> Prop) (s : jsstring) :
  Forall P (lit " <") -> Forall P s -> Forall P (joinLinesBeforeTags s).
Proof.
  intros Hr. apply step_keeps. intros t len r H.
  apply newlinesBeforeTag_inv in H. destruct H as (n & _ & _ & -> & _).
  exact Hr.
Qed.

Lemma removeTjsType_keeps (P : char -> Prop) (s : jsstring) :
  Forall P s -> Forall P (removeTjsType s).
Proof.
  apply step_keeps. intros t len r H.
  apply tjsTypeParagraph_inv in H. destruct H as (-> & _). constructor.
Qed.

Lemma divOpen_without (x : char) :
  isEscaped x = true ->
  forall d, isLevelDigit d = true -> Forall (fun c => c <> x) (divOpen d).
Proof.
  intros Hx d Hd. apply isLevelDigit_cases in Hd.
  unfold isEscaped in Hx.
  repeat (apply orb_true_iff in Hx; destruct Hx as [Hx | Hx]);
    apply N.eqb_eq in Hx; subst x;
    destruct Hd as [-> | [-> | [-> | [-> | [-> | ->]]]]];
    repeat constructor; discriminate.
Qed.

Ltac without_unit :=
  repeat constructor; discriminate.

(** The sanitized content has none of the code units that the escapes
    replace. *)
Lemma sanitize_unescaped (content : jsstring) :
  Forall (fun c => isEscaped c = false) (sanitize content).
Proof.
  assert (Hn : Forall (fun c => c <> nbsp) (sanitize content)).
  { unfold sanitize, escapeForMintlify.
    apply removeTjsType_keeps.
    unfold escapeBrace, escapeUnderscore, escapeBracket.
    do 3 (apply literal_keeps; [without_unit |]).
    apply joinLinesBeforeTags_keeps; [without_unit |].
    apply literal_removes. without_unit. }
  assert (Hb : Forall (fun c => c <> chr "[") (sanitize content)).
  { unfold sanitize, escapeForMintlify.
    apply removeTjsType_keeps.
    unfold escapeBrace, escapeUnderscore.
    do 2 (apply literal_keeps; [without_unit |]).
    apply literal_removes. without_unit. }
  assert (Hu : Forall (fun c => c <> chr "_") (sanitize content)).
  { unfold sanitize, escapeForMintlify.
    apply removeTjsType_keeps.
    unfold escapeBrace.
    apply literal_keeps; [without_unit |].
    apply literal_removes. without_unit. }
  assert (Hc : Forall (fun c => c <> chr "{") (sanitize content)).
  { unfold sanitize, escapeForMintlify.
    apply removeTjsType_keeps.
    apply literal_removes. without_unit. }
  induction (sanitize content) as [|c s IH]; constructor.
  - inversion Hn; inversion Hb; inversion Hu; inversion Hc; subst.
    unfold isEscaped.
    repeat (apply orb_false_iff; split); now apply N.eqb_neq.
  - inversion Hn; inversion Hb; inversion Hu; inversion Hc; subst. auto.
Qed.

Lemma unescaped_without (x : char) (s : jsstring) :
  isEscaped x = true ->
  Forall (fun c => isEscaped c = false) s -> Forall (fun c => c <> x) s.
Proof.
  intros Hx. apply Forall_impl. intros c Hc E. subst. congruence.
Qed.

Lemma Forall_not_In (x : char) (s : jsstring) :
  Forall (fun c => c <> x) s -> ~ In x s.
Proof.
  rewrite Forall_forall. intros H Hin. now apply (H x Hin).
Qed.

(** A rewrite whose matches all contain [<] leaves text without [<] as it
    is. *)
Lemma replaceAll_without_tags (m : Matcher) (s : jsstring) :
  (forall t len r, m t = Some (len, r) -> In (chr "<") t) ->
  ~ In (chr "<") s -> replaceAll m s = s.
Proof.
  intros Hm Hs. apply replaceAll_unmatched. intros pre t E.
  destruct (m t) as [[len r]|] eqn:Em; [| reflexivity].
  exfalso. apply Hs. rewrite E. apply in_or_app. right. eauto.
Qed.

Lemma structuralRewrites_without_tags (s : jsstring) :
  ~ In (chr "<") s ->
  convertHeadings s = s /\ joinLinesBeforeTags s = s /\ removeTjsType s = s.
Proof.
  intros Hs. unfold convertHeadings, joinLinesBeforeTags, removeTjsType.
  assert (Ho : replaceAll headingOpen s = s).
  { apply replaceAll_without_tags; [| exact Hs].
    intros t len r H. apply headingOpen_inv in H.
    destruct H as (d & rest & -> & _). now left. }
  rewrite Ho. repeat split.
  - apply replaceAll_without_tags; [| exact Hs].
    intros t len r H. apply headingClose_inv in H.
    destruct H as (d & rest & -> & _). now left.
  - apply replaceAll_without_tags; [| exact Hs].
    intros t len r H. apply newlinesBeforeTag_inv in H.
    destruct H as (n & _ & _ & _ & rest & Hskip).
    rewrite <- (firstn_skipn (S n) t), Hskip.
    apply in_or_app. right. now left.
  - apply replaceAll_without_tags; [| exact Hs].
    intros t len r H. apply tjsTypeParagraph_at_tag in H.
    destruct H as [rest ->]. now left.
Qed.

Lemma sanitize_without_tags (s : jsstring) :
  ~ In (chr "<") s -> ~ In (chr "<") (sanitize s).
Proof.
  intros Hs.
  assert (He : ~ In (chr "<")
                 (escapeBrace
                    (escapeUnderscore
                       (escapeBracket (encodeNbsp (reduceIndent s)))))).
  { apply Forall_not_In.
    unfold escapeBrace, escapeUnderscore, escapeBracket, encodeNbsp,
      reduceIndent.
    do 5 (apply literal_keeps; [without_unit |]).
    rewrite Forall_forall. intros c Hc E. subst. contradiction. }
  assert (Hj : ~ In (chr "<") (encodeNbsp (reduceIndent s))).
  { apply Forall_not_In. unfold encodeNbsp, reduceIndent.
    do 2 (apply literal_keeps; [without_unit |]).
    rewrite Forall_forall. intros c Hc E. subst. contradiction. }
  unfold sanitize, escapeForMintlify.
  rewrite (proj1 (@structuralRewrites_without_tags _ Hs)).
  rewrite (proj1 (proj2 (@structuralRewrites_without_tags _ Hj))).
  now rewrite (proj2 (proj2 (@structuralRewrites_without_tags _ He))).
Qed.

(** C8.  Sanitized content has no non-breaking space, [[], [_] or [{]
    left, and the entities written for them contain none.  So when the
    sanitizer runs on its own result the escapes (rewrites 3 and 5, and
    the indent reduction before them) change nothing: the second run does
    what the rewrites of headings, line feeds and [@TJS-type] paragraphs
    do, and no entity is escaped again.  On content without tags, where
    only the escapes apply, sanitizing twice is sanitizing once. *)
Theorem C8_escapes_not_repeated (content : jsstring) :
  let once := sanitize content in
  Forall (fun c => isEscaped c = false) once
  /\ encodeNbsp (reduceIndent (convertHeadings once)) = convertHeadings once
  /\ (let joined := joinLinesBeforeTags (convertHeadings once) in
      escapeBrace (escapeUnderscore (escapeBracket joined)) = joined)
  /\ sanitize once = structuralRewrites once
  /\ (~ In (chr "<") content -> sanitize once = once).
Proof.
  intros once.
  assert (H0 : Forall (fun c => isEscaped c = false) once)
    by apply sanitize_unescaped.
  assert (Hh : forall x, isEscaped x = true ->
                         ~ In x (convertHeadings once)).
  { intros x Hx. apply Forall_not_In.
    apply convertHeadings_keeps.
    - now apply divOpen_without.
    - unfold isEscaped in Hx.
      repeat (apply orb_true_iff in Hx; destruct Hx as [Hx | Hx]);
        apply N.eqb_eq in Hx; subst x; without_unit.
    - now apply unescaped_without. }
  assert (E3 : encodeNbsp (reduceIndent (convertHeadings once))
               = convertHeadings once).
  { unfold encodeNbsp, reduceIndent.
    rewrite (@replaceAll_literal_absent nbsp [nbsp]) by (now apply Hh).
    now rewrite (@replaceAll_literal_absent nbsp []) by (now apply Hh). }
  assert (Hj : forall x, isEscaped x = true ->
                         ~ In x (joinLinesBeforeTags (convertHeadings once))).
  { intros x Hx. apply Forall_not_In.
    apply joinLinesBeforeTags_keeps.
    - unfold isEscaped in Hx.
      repeat (apply orb_true_iff in Hx; destruct Hx as [Hx | Hx]);
        apply N.eqb_eq in Hx; subst x; without_unit.
    - rewrite Forall_forall. intros c Hc E. subst.
      now apply (Hh x Hx). }
  assert (E5 : escapeBrace
                 (escapeUnderscore
                    (escapeBracket (joinLinesBeforeTags (convertHeadings once))))
               = joinLinesBeforeTags (convertHeadings once)).
  { unfold escapeBrace, escapeUnderscore, escapeBracket.
    rewrite (@replaceAll_literal_absent (chr "[") []) by (now apply Hj).
    rewrite (@replaceAll_literal_absent (chr "_") []) by (now apply Hj).
    now rewrite (@replaceAll_literal_absent (chr "{") []) by (now apply Hj). }
  assert (E2 : sanitize once = structuralRewrites once).
  { unfold sanitize at 1, escapeForMintlify, structuralRewrites.
    now rewrite E3, E5. }
  repeat split; try assumption.
  intros Hc. rewrite E2. unfold structuralRewrites.
  assert (Ht : ~ In (chr "<") once) by (now apply sanitize_without_tags).
  destruct (@structuralRewrites_without_tags _ Ht) as (-> & -> & ->).
  reflexivity.
Qed.

(** Text with every escaped code unit in it: sanitized twice, it is as
    sanitized once. *)
Lemma C8_escapes_witness :
  let content := lit "a[0]_{x}" ++ [nbsp; nbsp; nbsp] in
  sanitize content = lit "a&#x5B;0]&#x5F;&#x7B;x}&nbsp;&nbsp;"
  /\ sanitize (sanitize content) = sanitize content.
Proof.
  intros content. split; [vm_compute; reflexivity |].
  apply (proj2 (proj2 (proj2 (proj2 (C8_escapes_not_repeated content))))).
  vm_compute. intros H.
  repeat (destruct H as [H | H]; [discriminate H |]). exact H.
Defined.

(** The sanitizer is not idempotent as a whole: a [@TJS-type] paragraph
    removed inside another one leaves text that the next run removes. *)
Remark sanitize_twice_differs :
  let content := lit "<p>@TJS-type a<p>@TJS-type x</p>b</p>" in
  sanitize content = lit "<p>@TJS-type ab</p>"
  /\ sanitize (sanitize content) = [].
Proof. split; vm_compute; reflexivity. Qed.


(** ** The sanitizer: heading tags *)

Lemma fits_short (q : Shape) (s : jsstring) :
  length s < length q -> fits q s = false.
Proof.
  revert s. induction q as [|p q IH]; intros [|c s]; simpl; intros H;
    try lia; try reflexivity.
  rewrite IH by lia. apply andb_false_r.
Qed.

Lemma fits_app_exact (q : Shape) (pre x y : jsstring) :
  length q <= length pre -> fits q (pre ++ x) = fits q (pre ++ y).
Proof.
  revert pre. induction q as [|p q IH]; intros [|c pre]; simpl; intros H;
    try lia; try reflexivity.
  f_equal. apply IH. lia.
Qed.

Lemma occursIn_iff (q : Shape) (s : jsstring) :
  occursIn q s = true <-> exists pre t, s = pre ++ t /\ fits q t = true.
Proof.
  induction s as [|c s IH]; simpl.
  - rewrite orb_false_r. split.
    + intros H. exists [], []. auto.
    + intros (pre & t & E & H). symmetry in E.
      apply app_eq_nil in E. destruct E as [_ ->]. exact H.
  - rewrite orb_true_iff, IH. split.
    + intros [H | (pre & t & -> & H)].
      * exists [], (c :: s). auto.
      * exists (c :: pre), t. auto.
    + intros ([|c' pre] & t & E & H); simpl in E.
      * left. now rewrite E.
      * right. injection E as -> ->. eauto.
Qed.

Lemma clash_fits (q : Shape) (r y : jsstring) :
  clash q r = true -> fits q (r ++ y) = false.
Proof.
  revert r. induction q as [|p q IH]; intros [|c r]; simpl;
    try discriminate.
  intros H. apply orb_true_iff in H. destruct H as [H | H].
  - apply negb_true_iff in H. now rewrite H.
  - rewrite (IH _ H). apply andb_false_r.
Qed.

Lemma allTails_tail (test : jsstring -> bool) (r1 : jsstring) (c : char)
  (r2 : jsstring) :
  allTails test (r1 ++ c :: r2) = true -> test (c :: r2) = true.
Proof.
  induction r1 as [|a r1 IH]; cbn [allTails app]; intros H;
    apply andb_true_iff in H; destruct H as [H1 H2]; auto.
Qed.

Lemma rejected_inside (q : Shape) (pre : jsstring) (c : char) (z : jsstring) :
  forallb (fun p => negb (p c)) q = true ->
  length pre < length q -> fits q (pre ++ c :: z) = false.
Proof.
  revert pre. induction q as [|p q IH]; intros [|a pre]; simpl;
    intros Hall Hlen; try lia.
  - apply andb_true_iff in Hall. destruct Hall as [H _].
    apply negb_true_iff in H. now rewrite H.
  - apply andb_true_iff in Hall. destruct Hall as [_ H].
    rewrite IH by (auto; lia). apply andb_false_r.
Qed.

Lemma inertb_sound (q : Shape) (r : jsstring) : inertb q r = true -> inert q r.
Proof.
  unfold inertb. intros H. apply andb_true_iff in H. destruct H as [Hh Ht].
  destruct r as [|c r]; [discriminate|]. simpl in Hh.
  split; [discriminate | split].
  - intros [|a pre] y Hlen.
    + simpl in Ht. apply andb_true_iff in Ht. destruct Ht as [Hc _].
      now apply (clash_fits q (c :: r) y).
    + destruct q as [|p q]; [simpl in Hlen; lia|].
      simpl in Hh. simpl app. simpl fits.
      rewrite rejected_inside; [apply andb_false_r | assumption |].
      simpl in Hlen. lia.
  - intros r1 c' r2 y E. rewrite E in Ht.
    apply allTails_tail in Ht.
    now apply (clash_fits q (c' :: r2) y).
Qed.

Section ShapeUnderReplacement.
Variable m : Matcher.
Variable q : Shape.
Hypothesis replacements_inert :
  forall t len r, m t = Some (len, r) -> inert q r.

(** A place of the result where the shape fits begins in copied text and
    stays in it. *)
Lemma fits_in_copied (s pre : jsstring) :
  length pre < length q ->
  fits q (pre ++ replaceAll m s) = true ->
  fits q (pre ++ s) = true
  /\ forall j, j < length q - length pre -> m (skipn j s) = None.
Proof.
  revert pre. induction s as [|c rest IH]; intros pre Hlen Hfit.
  - rewrite replaceAll_nil, app_nil_r in Hfit.
    rewrite fits_short in Hfit by assumption. discriminate.
  - destruct (m (c :: rest)) as [[len r]|] eqn:Em.
    + exfalso. rewrite (replaceAll_match m (s := c :: rest) (len := len)
                          (replacement := r)) in Hfit
        by (auto; discriminate).
      destruct (replacements_inert Em) as (_ & Hpre & _).
      rewrite Hpre in Hfit by assumption. discriminate.
    + rewrite replaceAll_copy in Hfit by assumption.
      change (pre ++ c :: replaceAll m rest)
        with (pre ++ [c] ++ replaceAll m rest) in Hfit.
      rewrite app_assoc in Hfit.
      change (pre ++ c :: rest) with (pre ++ [c] ++ rest).
      rewrite app_assoc.
      destruct (Nat.lt_ge_cases (length (pre ++ [c])) (length q)) as [Hl | Hl].
      * destruct (IH (pre ++ [c]) Hl Hfit) as [Hf Hj].
        split; [exact Hf|].
        intros [|j] Hjlt; [exact Em|]. simpl. apply Hj.
        rewrite length_app in *. simpl in *. lia.
      * split.
        -- now rewrite (fits_app_exact q _ rest (replaceAll m rest)).
        -- intros [|j] Hjlt; [exact Em|].
           rewrite length_app in Hl. simpl in Hl. lia.
Qed.

Hypothesis shape_nonempty : q <> [].

Lemma occurs_in_copied (s : jsstring) (k : nat) :
  occursIn q (replaceAllFrom m k s) = true ->
  exists pre t, s = pre ++ t /\ fits q t = true
                /\ forall j, j < length q -> m (skipn j t) = None.
Proof.
  assert (Hq : 0 < length q) by (destruct q; [congruence | simpl; lia]).
  revert k. induction s as [|c rest IH]; intros k Hocc.
  - simpl in Hocc. rewrite orb_false_r in Hocc.
    rewrite fits_short in Hocc by (simpl; lia). discriminate.
  - assert (Hrest : forall k', occursIn q (replaceAllFrom m k' rest) = true ->
              exists pre t, c :: rest = pre ++ t /\ fits q t = true
                /\ forall j, j < length q -> m (skipn j t) = None).
    { intros k' H. destruct (IH k' H) as (pre & t & -> & Hf & Hj).
      exists (c :: pre), t. auto. }
    simpl in Hocc. destruct k as [|k]; [| now apply Hrest in Hocc].
    destruct (m (c :: rest)) as [[len r]|] eqn:Em.
    + apply (Hrest (pred len)).
      destruct (replacements_inert Em) as (_ & _ & Hin).
      clear Em. revert Hocc.
      assert (Hany : forall r1 r2, r = r1 ++ r2 ->
                occursIn q (r2 ++ replaceAllFrom m (pred len) rest) = true ->
                occursIn q (replaceAllFrom m (pred len) rest) = true).
      { intros r1 r2. revert r1. induction r2 as [|a r2 IH2]; intros r1 E H;
          [exact H|].
        simpl in H. rewrite (Hin r1 a r2 _ E) in H. simpl in H.
        apply (IH2 (r1 ++ [a])); [| exact H].
        now rewrite <- app_assoc. }
      apply (Hany [] r). reflexivity.
    + simpl in Hocc. apply orb_true_iff in Hocc.
      destruct Hocc as [Hfit | Hocc]; [| now apply Hrest in Hocc].
      assert (Hfit' : fits q ([] ++ replaceAll m (c :: rest)) = true)
        by (rewrite replaceAll_copy by assumption; exact Hfit).
      destruct (fits_in_copied (c :: rest) [] Hq Hfit') as [Hf Hj].
      exists [], (c :: rest). split; [reflexivity | split; [exact Hf|]].
      intros j Hjlt. apply Hj. simpl. lia.
Qed.

(** A rewrite with inert replacements does not create the shape. *)
Lemma shape_not_created (s : jsstring) :
  occursIn q s = false -> occursIn q (replaceAll m s) = false.
Proof.
  intros Hs. destruct (occursIn q (replaceAll m s)) eqn:E; [| reflexivity].
  apply occurs_in_copied in E. destruct E as (pre & t & -> & Hf & _).
  assert (occursIn q (pre ++ t) = true); [| congruence].
  apply occursIn_iff. eauto.
Qed.

(** A rewrite that matches wherever the shape fits removes the shape. *)
Lemma shape_removed (s : jsstring) :
  (forall t, fits q t = true -> m t <> None) ->
  occursIn q (replaceAll m s) = false.
Proof.
  intros Hm. destruct (occursIn q (replaceAll m s)) eqn:E; [| reflexivity].
  apply occurs_in_copied in E. destruct E as (pre & t & -> & Hf & Hj).
  exfalso. apply (Hm t Hf). apply (Hj 0).
  destruct q; [congruence | simpl; lia].
Qed.

End ShapeUnderReplacement.

Lemma skipn_S_tl {A} (n : nat) (l : list A) : skipn (S n) l = tl (skipn n l).
Proof.
  revert l. induction n as [|n IH]; intros l.
  - destruct l; reflexivity.
  - destruct l as [|a l]; [reflexivity|].
    change (skipn (S (S n)) (a :: l)) with (skipn (S n) l).
    change (skipn (S n) (a :: l)) with (skipn n l). apply IH.
Qed.

Lemma newlinesBeforeTag_at_tag (rest : jsstring) :
  newlinesBeforeTag (chr "<" :: rest) = None.
Proof. reflexivity. Qed.

(** Replacing the line feeds together with the [<] after them by a space
    and [<] is replacing the line feeds alone by a space. *)
Lemma joinLines_ahead (s : jsstring) (k : nat) :
  replaceAllFrom newlinesBeforeTag k s = replaceAllFrom newlinesAhead k s.
Proof.
  revert k. induction s as [|c rest IH]; intros k; [reflexivity|].
  simpl. destruct k as [|k]; [| apply IH].
  unfold newlinesAhead at 1.
  destruct (newlinesBeforeTag (c :: rest)) as [[len r]|] eqn:Em.
  - apply newlinesBeforeTag_inv in Em.
    destruct Em as (n & _ & -> & -> & tail & Hskip).
    change (skipn (S n) (c :: rest)) with (skipn n rest) in Hskip.
    cbn [pred]. rewrite IH.
    rewrite (replaceAllFrom_skip newlinesAhead n rest), Hskip.
    rewrite (replaceAllFrom_skip newlinesAhead (S n) rest).
    rewrite skipn_S_tl, Hskip. cbn [tl].
    change (replaceAllFrom newlinesAhead 0 (chr "<" :: tail))
      with (replaceAll newlinesAhead (chr "<" :: tail)).
    rewrite replaceAll_copy by reflexivity. reflexivity.
  - now rewrite IH.
Qed.

Lemma joinLinesBeforeTags_ahead (s : jsstring) :
  joinLinesBeforeTags s = replaceAll newlinesAhead s.
Proof. apply joinLines_ahead. Qed.

Lemma newlinesAhead_replacement (t : jsstring) (len : nat) (r : jsstring) :
  newlinesAhead t = Some (len, r) -> r = lit " ".
Proof.
  unfold newlinesAhead. destruct (newlinesBeforeTag t) as [[? ?]|];
    congruence.
Qed.

Lemma headingOpenShape_nonempty : headingOpenShape <> [].
Proof. discriminate. Qed.

Lemma headingCloseShape_nonempty : headingCloseShape <> [].
Proof. discriminate. Qed.

Lemma divOpen_inert (d : char) :
  isLevelDigit d = true ->
  inert headingOpenShape (divOpen d) /\ inert headingCloseShape (divOpen d).
Proof.
  intros Hd. apply isLevelDigit_cases in Hd.
  destruct Hd as [-> | [-> | [-> | [-> | [-> | ->]]]]];
    split; apply inertb_sound; reflexivity.
Qed.

Ltac inert_by_test := split; apply inertb_sound; reflexivity.

(** A rewrite whose replacements are inert for both heading shapes keeps
    a text free of heading tags. *)
Lemma step_keeps_headings_out (m : Matcher) (s : jsstring) :
  (forall t len r, m t = Some (len, r) ->
                   inert headingOpenShape r /\ inert headingCloseShape r) ->
  hasHeadingTag s = false -> hasHeadingTag (replaceAll m s) = false.
Proof.
  unfold hasHeadingTag. intros Hr H.
  apply orb_false_iff in H. destruct H as [Ho Hc].
  apply orb_false_iff. split.
  - apply shape_not_created; auto using headingOpenShape_nonempty.
    intros t len r Hm. exact (proj1 (Hr _ _ _ Hm)).
  - apply shape_not_created; auto using headingCloseShape_nonempty.
    intros t len r Hm. exact (proj2 (Hr _ _ _ Hm)).
Qed.

Lemma literal_keeps_headings_out (pattern replacement s : jsstring) :
  inert headingOpenShape replacement /\ inert headingCloseShape replacement ->
  hasHeadingTag s = false ->
  hasHeadingTag (replaceAll (literal pattern replacement) s) = false.
Proof.
  intros Hr. apply step_keeps_headings_out. intros t len r H.
  now rewrite (literal_replacement _ _ _ H).
Qed.

Lemma fits_headingOpen (t : jsstring) :
  fits headingOpenShape t = true -> headingOpen t <> None.
Proof.
  destruct t as [|c0 [|c1 [|d rest]]]; unfold headingOpenShape; cbn [fits];
    rewrite ?andb_false_r; try discriminate.
  intros H.
  apply andb_true_iff in H. destruct H as [H0 H].
  apply andb_true_iff in H. destruct H as [H1 H].
  apply andb_true_iff in H. destruct H as [H2 _].
  apply N.eqb_eq in H0, H1. subst c0 c1.
  unfold headingOpen. rewrite !N.eqb_refl, H2. discriminate.
Qed.

Lemma fits_headingClose (t : jsstring) :
  fits headingCloseShape t = true -> headingClose t <> None.
Proof.
  destruct t as [|c0 [|c1 [|c2 [|d [|c4 rest]]]]]; unfold headingCloseShape;
    cbn [fits]; rewrite ?andb_false_r; try discriminate.
  intros H.
  apply andb_true_iff in H. destruct H as [H0 H].
  apply andb_true_iff in H. destruct H as [H1 H].
  apply andb_true_iff in H. destruct H as [H2 H].
  apply andb_true_iff in H. destruct H as [H3 H].
  apply andb_true_iff in H. destruct H as [H4 _].
  apply N.eqb_eq in H0, H1, H2, H4. subst c0 c1 c2 c4.
  unfold headingClose. rewrite !N.eqb_refl, H3. discriminate.
Qed.

(** The conversion of the headings leaves no heading tag. *)
Lemma convertHeadings_no_heading (content : jsstring) :
  hasHeadingTag (convertHeadings content) = false.
Proof.
  unfold hasHeadingTag, convertHeadings. apply orb_false_iff. split.
  - apply shape_not_created; auto using headingOpenShape_nonempty.
    + intros t len r H. apply headingClose_inv in H.
      destruct H as (d & rest & _ & _ & _ & ->).
      apply inertb_sound. reflexivity.
    + apply shape_removed; auto using headingOpenShape_nonempty.
      * intros t len r H. apply headingOpen_inv in H.
        destruct H as (d & rest & _ & Hd & _ & ->).
        now apply divOpen_inert.
      * apply fits_headingOpen.
  - apply shape_removed; auto using headingCloseShape_nonempty.
    + intros t len r H. apply headingClose_inv in H.
      destruct H as (d & rest & _ & _ & _ & ->).
      apply inertb_sound. reflexivity.
    + apply fits_headingClose.
Qed.

(** Nor do the escapes bring one back. *)
Lemma escapeForMintlify_no_heading (content : jsstring) :
  hasHeadingTag (escapeForMintlify content) = false.
Proof.
  unfold escapeForMintlify, escapeBrace, escapeUnderscore, escapeBracket.
  do 3 (apply literal_keeps_headings_out; [inert_by_test |]).
  rewrite joinLinesBeforeTags_ahead.
  apply step_keeps_headings_out.
  { intros t len r H. rewrite (newlinesAhead_replacement _ H).
    inert_by_test. }
  unfold encodeNbsp, reduceIndent.
  do 2 (apply literal_keeps_headings_out; [inert_by_test |]).
  apply convertHeadings_no_heading.
Qed.

(** *** Angle brackets are kept by the rewrites before the removal *)

Lemma bracketsClosedFrom_angles (s : jsstring) (o : bool) :
  bracketsClosedFrom o s = bracketsClosedFrom o (angles s).
Proof.
  revert o. induction s as [|c s IH]; intros o; [reflexivity|].
  unfold angles. cbn [filter bracketsClosedFrom]. unfold isAngle.
  destruct (c =? chr "<")%N eqn:E1.
  - cbn [orb bracketsClosedFrom]. rewrite E1. f_equal. apply IH.
  - destruct (c =? chr ">")%N eqn:E2.
    + cbn [orb bracketsClosedFrom]. rewrite E1, E2. apply IH.
    + cbn [orb]. apply IH.
Qed.

Lemma angles_app (a b : jsstring) : angles (a ++ b) = angles a ++ angles b.
Proof. apply filter_app. Qed.

Lemma angles_replaceAllFrom (m : Matcher) :
  (forall t len r, m t = Some (len, r) ->
                   1 <= len /\ angles r = angles (firstn len t)) ->
  forall s k, angles (replaceAllFrom m k s) = angles (skipn k s).
Proof.
  intros Hm. induction s as [|c rest IH]; intros k.
  - now rewrite skipn_nil.
  - simpl replaceAllFrom. destruct k as [|k]; [| apply IH].
    destruct (m (c :: rest)) as [[len r]|] eqn:Em.
    + destruct (Hm _ _ _ Em) as [Hlen Ha].
      rewrite angles_app, IH, Ha.
      destruct len as [|len]; [lia|]. cbn [pred].
      rewrite <- angles_app.
      change (skipn len rest) with (skipn (S len) (c :: rest)).
      now rewrite firstn_skipn.
    + unfold angles. cbn [filter skipn].
      destruct (isAngle c); [f_equal |]; apply (IH 0).
Qed.

Lemma bracketsClosed_replaceAll (m : Matcher) (s : jsstring) :
  (forall t len r, m t = Some (len, r) ->
                   1 <= len /\ angles r = angles (firstn len t)) ->
  bracketsClosed (replaceAll m s) = bracketsClosed s.
Proof.
  intros Hm. unfold bracketsClosed, replaceAll.
  rewrite bracketsClosedFrom_angles, (angles_replaceAllFrom m Hm).
  simpl skipn. now rewrite <- bracketsClosedFrom_angles.
Qed.

Lemma startsWith_firstn (pattern t : jsstring) :
  startsWith pattern t = true -> firstn (length pattern) t = pattern.
Proof.
  revert t. induction pattern as [|p pattern IH]; intros [|c t]; simpl;
    try discriminate; try reflexivity.
  intros H. apply andb_true_iff in H. destruct H as [Hp H].
  apply N.eqb_eq in Hp. subst. f_equal. now apply IH.
Qed.

Lemma literal_inv (pattern replacement t : jsstring) (len : nat)
  (r : jsstring) :
  literal pattern replacement t = Some (len, r) ->
  len = length pattern /\ r = replacement /\ firstn len t = pattern.
Proof.
  unfold literal. destruct (startsWith pattern t) eqn:E; [| discriminate].
  intros [= <- <-]. repeat split. now apply startsWith_firstn.
Qed.

Lemma bracketsClosed_literal (pattern replacement s : jsstring) :
  1 <= length pattern -> angles replacement = angles pattern ->
  bracketsClosed (replaceAll (literal pattern replacement) s)
  = bracketsClosed s.
Proof.
  intros Hlen Ha. apply bracketsClosed_replaceAll.
  intros t len r H. apply literal_inv in H.
  destruct H as (-> & -> & ->). auto.
Qed.

Lemma countWhile_firstn (p : char -> bool) (t : jsstring) :
  Forall (fun c => p c = true) (firstn (countWhile p t) t).
Proof.
  induction t as [|c t IH]; simpl; [constructor|].
  destruct (p c) eqn:E; simpl; [now constructor | constructor].
Qed.

Lemma firstn_S_skipn {A} (k : nat) (t : list A) (c : A) (rest : list A) :
  skipn k t = c :: rest -> firstn (S k) t = firstn k t ++ [c].
Proof.
  revert t. induction k as [|k IH]; intros t E.
  - simpl in E. subst. reflexivity.
  - destruct t as [|a t]; [discriminate|].
    change (skipn (S k) (a :: t)) with (skipn k t) in E.
    change (firstn (S (S k)) (a :: t)) with (a :: firstn (S k) t).
    now rewrite (IH t E).
Qed.

Lemma angles_of_newlines (s : jsstring) :
  Forall (fun c => (newline =? c)%N = true) s -> angles s = [].
Proof.
  induction 1 as [|c s Hc _ IH]; [reflexivity|].
  apply N.eqb_eq in Hc. subst c. exact IH.
Qed.

Lemma bracketsClosed_convertHeadings (s : jsstring) :
  bracketsClosed (convertHeadings s) = bracketsClosed s.
Proof.
  unfold convertHeadings.
  rewrite bracketsClosed_replaceAll.
  - apply bracketsClosed_replaceAll.
    intros t len r H. apply headingOpen_inv in H.
    destruct H as (d & rest & -> & Hd & -> & ->).
    split; [lia|]. apply isLevelDigit_cases in Hd.
    destruct Hd as [-> | [-> | [-> | [-> | [-> | ->]]]]]; reflexivity.
  - intros t len r H. apply headingClose_inv in H.
    destruct H as (d & rest & -> & Hd & -> & ->).
    split; [lia|]. apply isLevelDigit_cases in Hd.
    destruct Hd as [-> | [-> | [-> | [-> | [-> | ->]]]]]; reflexivity.
Qed.

Lemma bracketsClosed_joinLinesBeforeTags (s : jsstring) :
  bracketsClosed (joinLinesBeforeTags s) = bracketsClosed s.
Proof.
  apply bracketsClosed_replaceAll.
  intros t len r H. apply newlinesBeforeTag_inv in H.
  destruct H as (n & Hn & -> & -> & rest & Hskip).
  split; [lia|].
  rewrite (firstn_S_skipn _ _ Hskip), angles_app.
  rewrite (@angles_of_newlines (firstn (S n) t)); [reflexivity|].
  rewrite <- Hn. apply countWhile_firstn.
Qed.

Lemma bracketsClosed_escapeForMintlify (s : jsstring) :
  bracketsClosed (escapeForMintlify s) = bracketsClosed s.
Proof.
  unfold escapeForMintlify, escapeBrace, escapeUnderscore, escapeBracket,
    encodeNbsp, reduceIndent.
  rewrite !bracketsClosed_literal by (simpl; auto).
  rewrite bracketsClosed_joinLinesBeforeTags.
  rewrite !bracketsClosed_literal by (simpl; auto).
  apply bracketsClosed_convertHeadings.
Qed.

(** *** The removal of the [@TJS-type] paragraphs *)

Lemma bracketsClosedFrom_tail (o : bool) (c : char) (rest : jsstring) :
  bracketsClosedFrom o (c :: rest) = true ->
  exists o', bracketsClosedFrom o' rest = true.
Proof.
  cbn [bracketsClosedFrom].
  destruct (c =? chr "<")%N; [| destruct (c =? chr ">")%N]; intros H.
  - apply andb_true_iff in H. destruct H as [_ H]. eauto.
  - eauto.
  - eauto.
Qed.

(** After a [<] that is still open, what the removal leaves at the front
    is what stood there before. *)
Lemma fits_through_removal (q : Shape) :
  plainShape q ->
  forall s, bracketsClosedFrom true s = true ->
            fits q (removeTjsType s) = true -> fits q s = true.
Proof.
  unfold removeTjsType.
  induction q as [|p q IH]; intros Hq s Hb Hf; [reflexivity|].
  destruct s as [|c rest]; [exact Hf|].
  destruct (tjsTypeParagraph (c :: rest)) as [[len r]|] eqn:Em.
  - apply tjsTypeParagraph_at_tag in Em. destruct Em as [rest' E].
    injection E as -> _. discriminate Hb.
  - rewrite replaceAll_copy in Hf by assumption.
    cbn [fits] in *. apply andb_true_iff in Hf. destruct Hf as [Hp Hf].
    rewrite Hp. cbn [andb].
    destruct q as [|p' q]; [reflexivity|].
    destruct Hq as (Hlt & Hgt & Hq).
    apply IH; [exact Hq | | exact Hf].
    cbn [bracketsClosedFrom] in Hb.
    destruct (c =? chr "<")%N eqn:E1;
      [apply N.eqb_eq in E1; congruence|].
    destruct (c =? chr ">")%N eqn:E2;
      [apply N.eqb_eq in E2; congruence|].
    exact Hb.
Qed.

Lemma shape_not_spliced (q : Shape) :
  plainShape q ->
  forall s k o,
    bracketsClosedFrom o s = true ->
    occursIn (N.eqb (chr "<") :: q) s = false ->
    occursIn (N.eqb (chr "<") :: q) (replaceAllFrom tjsTypeParagraph k s)
    = false.
Proof.
  intros Hq. induction s as [|c rest IH]; intros k o Hb Hs; [exact Hs|].
  destruct (bracketsClosedFrom_tail _ _ _ Hb) as [o' Hb'].
  cbn [occursIn] in Hs. apply orb_false_iff in Hs. destruct Hs as [Hfit Hrest].
  cbn [replaceAllFrom]. destruct k as [|k]; [| now apply (IH k o')].
  destruct (tjsTypeParagraph (c :: rest)) as [[len r]|] eqn:Em.
  - apply tjsTypeParagraph_inv in Em. destruct Em as (-> & _).
    now apply (IH _ o').
  - cbn [occursIn]. apply orb_false_iff. split; [| now apply (IH 0 o')].
    cbn [fits] in *.
    destruct (chr "<" =? c)%N eqn:Ec; [| reflexivity].
    cbn [andb] in *. apply N.eqb_eq in Ec. subst c.
    destruct (fits q (replaceAllFrom tjsTypeParagraph 0 rest)) eqn:Ef;
      [| reflexivity].
    rewrite <- Hfit. symmetry.
    apply (fits_through_removal q Hq); [| exact Ef].
    cbn [bracketsClosedFrom] in Hb. rewrite N.eqb_refl in Hb.
    apply andb_true_iff in Hb. now destruct Hb.
Qed.

Lemma removeTjsType_no_heading (s : jsstring) :
  bracketsClosed s = true -> hasHeadingTag s = false ->
  hasHeadingTag (removeTjsType s) = false.
Proof.
  unfold hasHeadingTag, removeTjsType, replaceAll. intros Hb H.
  apply orb_false_iff in H. destruct H as [Ho Hc].
  apply orb_false_iff. split.
  - apply (@shape_not_spliced [N.eqb (chr "h"); isLevelDigit]) with (o := false);
      [repeat split | exact Hb | exact Ho].
  - apply (@shape_not_spliced
             [N.eqb (chr "/"); N.eqb (chr "h"); isLevelDigit; N.eqb (chr ">")])
      with (o := false); [repeat split | exact Hb | exact Hc].
Qed.

(** Markup whose angle brackets are closed has no heading tag after the
    sanitizer. *)
Lemma sanitize_no_heading (content : jsstring) :
  bracketsClosed content = true -> hasHeadingTag (sanitize content) = false.
Proof.
  intros Hb. unfold sanitize. apply removeTjsType_no_heading.
  - now rewrite bracketsClosed_escapeForMintlify.
  - apply escapeForMintlify_no_heading.
Qed.

(** *** The [div] written for a heading stays in the text *)

Lemma cannotStart_sound (t y : jsstring) :
  t <> [] -> cannotStart t = true -> mayStart (t ++ y) = false.
Proof.
  destruct t as [|c rest]; [congruence|]. intros _.
  cbn [cannotStart mayStart app]. intros H.
  apply andb_true_iff in H. destruct H as [Hs H].
  apply negb_true_iff in Hs. rewrite Hs. cbn [orb].
  apply orb_true_iff in H. destruct H as [H | H].
  - apply negb_true_iff in H. now rewrite H.
  - destruct rest as [|c1 rest]; [discriminate|].
    apply negb_true_iff in H. cbn [app]. rewrite H. apply andb_false_r.
Qed.

Lemma tagsClose_at_tag (a z : jsstring) :
  tagsClose (a ++ chr "<" :: z) = true -> exists z', z = chr "/" :: z'.
Proof.
  induction a as [|c a IH]; cbn [app tagsClose]; intros H;
    apply andb_true_iff in H; destruct H as [H1 H2]; [| auto].
  rewrite N.eqb_refl in H1. cbn [negb orb] in H1.
  destruct z as [|c1 z]; [discriminate|].
  apply N.eqb_eq in H1. subst. eauto.
Qed.

Lemma tagsClose_plain (s : jsstring) :
  Forall (fun c => (c =? chr "<")%N = false) s -> tagsClose s = true.
Proof.
  induction 1 as [|c s Hc _ IH]; [reflexivity|].
  cbn [tagsClose]. now rewrite Hc, IH.
Qed.

Lemma tagsClose_app_plain (a b : jsstring) :
  Forall (fun c => (c =? chr "<")%N = false) a ->
  tagsClose (a ++ b) = tagsClose b.
Proof.
  induction 1 as [|c a Hc _ IH]; [reflexivity|].
  cbn [app tagsClose]. now rewrite Hc, IH.
Qed.

Section BlockKept.
Variable m : Matcher.
Variable r : jsstring.
Hypothesis m_avoids_r : avoids m r.

Lemma block_copied (y : jsstring) :
  replaceAll m (r ++ y) = r ++ replaceAll m y.
Proof.
  destruct m_avoids_r as [_ Hin].
  assert (H : forall r2 r1, r = r1 ++ r2 ->
                            replaceAll m (r2 ++ y) = r2 ++ replaceAll m y).
  { induction r2 as [|c r2 IH]; intros r1 E; [reflexivity|].
    cbn [app]. rewrite replaceAll_copy by (eapply Hin; eauto).
    f_equal. apply (IH (r1 ++ [c])). now rewrite <- app_assoc. }
  now apply (H r []).
Qed.

(** The text before the block is rewritten on its own, the block is
    copied, and the text after it is rewritten on its own. *)
Lemma block_kept (x y : jsstring) (k : nat) :
  k <= length x ->
  exists x', replaceAllFrom m k (x ++ r ++ y) = x' ++ r ++ replaceAll m y.
Proof.
  revert k. induction x as [|c x IH]; intros k Hk.
  - assert (k = 0) as -> by (simpl in Hk; lia).
    exists []. apply block_copied.
  - cbn [app replaceAllFrom]. destruct k as [|k].
    + destruct (m (c :: x ++ r ++ y)) as [[len rep]|] eqn:Em.
      * destruct m_avoids_r as [Hpre _].
        specialize (Hpre (c :: x) y len rep Em). simpl in Hpre.
        destruct (IH (pred len)) as [x' E]; [lia|].
        exists (rep ++ x'). now rewrite E, <- app_assoc.
      * destruct (IH 0) as [x' E]; [lia|].
        exists (c :: x'). now rewrite E.
    + simpl in Hk. apply IH. lia.
Qed.

End BlockKept.

Lemma divOpen_cannot_start (d : char) :
  isLevelDigit d = true ->
  allTails cannotStart (divOpen d) = true
  /\ exists rest, divOpen d = chr "<" :: chr "d" :: rest.
Proof.
  intros Hd. apply isLevelDigit_cases in Hd.
  destruct Hd as [-> | [-> | [-> | [-> | [-> | ->]]]]];
    (split; [reflexivity | eexists; reflexivity]).
Qed.

(** No rewrite with this footprint touches the [div] of a heading. *)
Lemma footprint_avoids_div (m : Matcher) (d : char) :
  footprint m -> isLevelDigit d = true -> avoids m (divOpen d).
Proof.
  intros Hm Hd. destruct (divOpen_cannot_start d Hd) as [Htails [r' Er]].
  assert (Hin : forall r1 c r2 y, divOpen d = r1 ++ c :: r2 ->
                                  m (c :: r2 ++ y) = None).
  { intros r1 c r2 y E.
    destruct (m (c :: r2 ++ y)) as [[len rep]|] eqn:Em; [| reflexivity].
    destruct (Hm _ _ _ Em) as (_ & Hstart & _).
    rewrite E in Htails. apply allTails_tail in Htails.
    change (c :: r2 ++ y) with ((c :: r2) ++ y) in Hstart.
    rewrite cannotStart_sound in Hstart by (auto; discriminate).
    discriminate. }
  split; [| exact Hin].
  intros pre y len rep Em.
  destruct (Hm _ _ _ Em) as (Hlen & _ & Hclose).
  split; [exact Hlen|].
  destruct (Nat.le_gt_cases len (length pre)) as [|Hgt]; [assumption|].
  exfalso. destruct pre as [|a pre].
  - assert (Hn : m (chr "<" :: (chr "d" :: r') ++ y) = None)
      by (apply (Hin []); now rewrite Er).
    cbn [app] in Em, Hn. rewrite Er in Em. cbn [app] in Em. congruence.
  - destruct len as [|len]; [lia|].
    simpl in Hgt. cbn [app firstn tl] in Hclose.
    rewrite firstn_app in Hclose.
    rewrite firstn_all2 in Hclose by lia.
    rewrite Er in Hclose.
    destruct (len - length pre) as [|j] eqn:Ej; [lia|].
    cbn [app firstn] in Hclose.
    apply tagsClose_at_tag in Hclose. destruct Hclose as [z' Hz].
    destruct j; discriminate Hz.
Qed.

Lemma countWhile_pos (p : char -> bool) (t : jsstring) (n : nat) :
  countWhile p t = S n -> exists c rest, t = c :: rest /\ p c = true.
Proof.
  destruct t as [|c rest]; simpl; [discriminate|].
  destruct (p c) eqn:E; [eauto | discriminate].
Qed.

Lemma countWhile_le (p : char -> bool) (t : jsstring) :
  countWhile p t <= length t.
Proof.
  induction t as [|c t IH]; simpl; [lia|]. destruct (p c); lia.
Qed.

Lemma startsWith_split (pattern t : jsstring) :
  startsWith pattern t = true -> t = pattern ++ skipn (length pattern) t.
Proof.
  intros H. rewrite <- (firstn_skipn (length pattern) t) at 1.
  now rewrite (startsWith_firstn _ _ H).
Qed.

Lemma footprint_headingClose : footprint headingClose.
Proof.
  intros t len r H. apply headingClose_inv in H.
  destruct H as (d & rest & -> & Hd & -> & _).
  split; [lia | split; [reflexivity |]].
  apply isLevelDigit_cases in Hd.
  destruct Hd as [-> | [-> | [-> | [-> | [-> | ->]]]]]; reflexivity.
Qed.

Lemma footprint_literal (p0 : char) (pattern replacement : jsstring) :
  isStartUnit p0 = true -> tagsClose pattern = true ->
  footprint (literal (p0 :: pattern) replacement).
Proof.
  intros Hp Hc t len r H. apply literal_inv in H.
  destruct H as (-> & _ & Hf).
  split; [simpl; lia | split].
  - destruct t as [|c t]; [discriminate|].
    cbn [length firstn] in Hf. injection Hf as -> _.
    cbn [mayStart]. now rewrite Hp.
  - now rewrite Hf.
Qed.

Lemma footprint_newlinesAhead : footprint newlinesAhead.
Proof.
  intros t len r H. unfold newlinesAhead in H.
  destruct (newlinesBeforeTag t) as [[len0 r0]|] eqn:E; [| discriminate].
  injection H as <- _.
  apply newlinesBeforeTag_inv in E.
  destruct E as (n & Hn & -> & _ & _). cbn [pred].
  split; [lia | split].
  - apply countWhile_pos in Hn. destruct Hn as (c & rest & -> & Hc).
    apply N.eqb_eq in Hc. subst c. reflexivity.
  - assert (Hall : Forall (fun c => (newline =? c)%N = true) (firstn (S n) t))
      by (rewrite <- Hn; apply countWhile_firstn).
    apply tagsClose_plain.
    destruct (firstn (S n) t) as [|c l]; [constructor|].
    inversion Hall as [|? ? _ Hl]; subst. cbn [tl].
    eapply Forall_impl; [| exact Hl].
    intros a Ha. apply N.eqb_eq in Ha. now subst a.
Qed.

Lemma footprint_tjsTypeParagraph : footprint tjsTypeParagraph.
Proof.
  intros t len r H. apply tjsTypeParagraph_inv in H.
  destruct H as (_ & Hopen & n & Hn & Hclose & ->).
  set (body := skipn 13 t) in *.
  assert (Et : t = lit "<p>@TJS-type " ++ body)
    by (apply (startsWith_split _ _ Hopen)).
  assert (Hrun : Forall (fun c => (c =? chr "<")%N = false)
                        (firstn (S n) body)).
  { rewrite <- Hn. eapply Forall_impl; [| apply countWhile_firstn].
    intros c Hc. now apply negb_true_iff in Hc. }
  assert (Hlen : length (firstn (S n) body) = S n).
  { apply firstn_length_le. rewrite <- Hn. apply countWhile_le. }
  assert (Eb : body = firstn (S n) body ++ lit "</p>"
                        ++ skipn 4 (skipn (S n) body)).
  { rewrite <- (firstn_skipn (S n) body) at 1. f_equal.
    apply (startsWith_split _ _ Hclose). }
  split; [lia | split].
  - rewrite Et. reflexivity.
  - set (run := firstn (S n) body) in *.
    assert (Ef : firstn (13 + S n + 4) t
                 = lit "<p>@TJS-type " ++ run ++ lit "</p>").
    { rewrite Et, Eb.
      replace (lit "<p>@TJS-type " ++ run ++ lit "</p>"
                 ++ skipn 4 (skipn (S n) body))
        with ((lit "<p>@TJS-type " ++ run ++ lit "</p>")
                ++ skipn 4 (skipn (S n) body))
        by (now rewrite <- !app_assoc).
      replace (13 + S n + 4)
        with (length (lit "<p>@TJS-type " ++ run ++ lit "</p>") + 0)
        by (rewrite !length_app, Hlen; simpl; lia).
      rewrite firstn_app_2. cbn [firstn]. now rewrite app_nil_r. }
    rewrite Ef.
    change (lit "<p>@TJS-type ") with (chr "<" :: lit "p>@TJS-type ").
    cbn [app tl]. rewrite app_assoc.
    rewrite tagsClose_app_plain; [reflexivity|].
    apply Forall_app. split; [| exact Hrun].
    repeat constructor.
Qed.

Lemma step_keeps_div (m : Matcher) (d : char) (x y : jsstring) :
  footprint m -> isLevelDigit d = true ->
  exists x',
    replaceAll m (x ++ divOpen d ++ y) = x' ++ divOpen d ++ replaceAll m y.
Proof.
  intros Hm Hd. apply block_kept; [| lia].
  now apply footprint_avoids_div.
Qed.

(** The first rewrite writes the [div] where the heading tag stood. *)
Lemma headingOpen_writes_div (d : char) (a b : jsstring) (k : nat) :
  isLevelDigit d = true -> k <= length a ->
  exists x,
    replaceAllFrom headingOpen k (a ++ chr "<" :: chr "h" :: d :: b)
    = x ++ divOpen d ++ replaceAll headingOpen b.
Proof.
  intros Hd. revert k. induction a as [|c a IH]; intros k Hk.
  - assert (k = 0) as -> by (simpl in Hk; lia).
    exists []. cbn [app replaceAllFrom].
    unfold headingOpen at 1. rewrite !N.eqb_refl, Hd. cbn [andb pred].
    now rewrite replaceAllFrom_skip.
  - cbn [app replaceAllFrom]. destruct k as [|k].
    + destruct (headingOpen (c :: a ++ chr "<" :: chr "h" :: d :: b))
        as [[len r]|] eqn:Em.
      * apply headingOpen_inv in Em.
        destruct Em as (d' & rest & E & Hd' & -> & ->).
        assert (Ha : 2 <= length a).
        { destruct a as [|a0 [|a1 a]]; simpl; try lia.
          - discriminate E.
          - injection E as _ _ E2 _. subst d'. discriminate Hd'. }
        destruct (IH 2 Ha) as [x Ex].
        exists (divOpen d' ++ x). cbn [pred]. now rewrite Ex, <- app_assoc.
      * destruct (IH 0) as [x Ex]; [lia|].
        exists (c :: x). now rewrite Ex.
    + simpl in Hk. apply IH. lia.
Qed.

(** An opening heading tag of the content stands in the sanitized content
    as the [div] with its level, followed by the sanitized rest. *)
Lemma sanitize_writes_div (d : char) (a b : jsstring) :
  isLevelDigit d = true ->
  exists x,
    sanitize (a ++ [chr "<"; chr "h"; d] ++ b)
    = x ++ divOpen d ++ sanitize b.
Proof.
  intros Hd. unfold sanitize, escapeForMintlify, convertHeadings.
  destruct (@headingOpen_writes_div d a b 0 Hd (Nat.le_0_l _)) as [x1 E1].
  cbn [app]. fold (replaceAll headingOpen (a ++ chr "<" :: chr "h" :: d :: b))
    in E1.
  rewrite E1.
  destruct (@step_keeps_div _ d x1 (replaceAll headingOpen b)
              footprint_headingClose Hd) as [x2 E2].
  rewrite E2.
  unfold reduceIndent.
  destruct (@step_keeps_div _ d x2
              (replaceAll headingClose (replaceAll headingOpen b))
              (@footprint_literal nbsp [nbsp] [nbsp] eq_refl eq_refl) Hd)
    as [x3 E3].
  rewrite E3. unfold encodeNbsp.
  match goal with
  | |- context [replaceAll (literal [nbsp] ?rep) (x3 ++ divOpen d ++ ?y)] =>
      destruct (@step_keeps_div _ d x3 y
                  (@footprint_literal nbsp [] rep eq_refl eq_refl) Hd)
        as [x4 E4]
  end.
  rewrite E4. rewrite joinLinesBeforeTags_ahead.
  match goal with
  | |- context [replaceAll newlinesAhead (x4 ++ divOpen d ++ ?y)] =>
      destruct (@step_keeps_div _ d x4 y footprint_newlinesAhead Hd) as [x5 E5]
  end.
  rewrite E5. unfold escapeBracket. change (lit "[") with [chr "["].
  match goal with
  | |- context [replaceAll (literal [chr "["] ?rep) (x5 ++ divOpen d ++ ?y)] =>
      destruct (@step_keeps_div _ d x5 y
                  (@footprint_literal (chr "[") [] rep eq_refl eq_refl) Hd)
        as [x6 E6]
  end.
  rewrite E6. unfold escapeUnderscore. change (lit "_") with [chr "_"].
  match goal with
  | |- context [replaceAll (literal [chr "_"] ?rep) (x6 ++ divOpen d ++ ?y)] =>
      destruct (@step_keeps_div _ d x6 y
                  (@footprint_literal (chr "_") [] rep eq_refl eq_refl) Hd)
        as [x7 E7]
  end.
  rewrite E7. unfold escapeBrace. change (lit "{") with [chr "{"].
  match goal with
  | |- context [replaceAll (literal [chr "{"] ?rep) (x7 ++ divOpen d ++ ?y)] =>
      destruct (@step_keeps_div _ d x7 y
                  (@footprint_literal (chr "{") [] rep eq_refl eq_refl) Hd)
        as [x8 E8]
  end.
  rewrite E8. unfold removeTjsType.
  match goal with
  | |- context [replaceAll tjsTypeParagraph (x8 ++ divOpen d ++ ?y)] =>
      destruct (@step_keeps_div _ d x8 y footprint_tjsTypeParagraph Hd) as [x9 E9]
  end.
  rewrite E9. exists x9.
  now rewrite <- joinLinesBeforeTags_ahead.
Qed.

(** *** The assembled document *)

Lemma occursIn_fits (q : Shape) (s : jsstring) :
  fits q s = true -> occursIn q s = true.
Proof. intros H. destruct s; simpl; now rewrite H. Qed.

Lemma occursIn_cons (q : Shape) (c : char) (s : jsstring) :
  occursIn q s = true -> occursIn q (c :: s) = true.
Proof. intros H. cbn [occursIn]. rewrite H. apply orb_true_r. Qed.

(** A place where the shape fits lies on one side of an inert text. *)
Lemma inert_split (q : Shape) (r x y : jsstring) :
  inert q r -> occursIn q (x ++ r ++ y) = true ->
  occursIn q x = true \/ occursIn q y = true.
Proof.
  intros (Hne & Hpre & Hin). induction x as [|c x IH]; intros H.
  - right. cbn [app] in H.
    assert (Hany : forall r2 r1, r = r1 ++ r2 ->
                                 occursIn q (r2 ++ y) = true ->
                                 occursIn q y = true).
    { induction r2 as [|a r2 IH2]; intros r1 E Hocc; [exact Hocc|].
      cbn [app occursIn] in Hocc. rewrite (Hin r1 a r2 y E) in Hocc.
      cbn [orb] in Hocc. apply (IH2 (r1 ++ [a])); [| exact Hocc].
      now rewrite <- app_assoc. }
    now apply (Hany r []).
  - cbn [app occursIn] in H. apply orb_true_iff in H.
    destruct H as [Hfit | Hocc].
    + left. apply occursIn_fits.
      destruct (Nat.lt_ge_cases (length (c :: x)) (length q)) as [Hl | Hl].
      * change (c :: x ++ r ++ y) with ((c :: x) ++ r ++ y) in Hfit.
        rewrite Hpre in Hfit by assumption. discriminate.
      * change (c :: x ++ r ++ y) with ((c :: x) ++ r ++ y) in Hfit.
        rewrite (fits_app_exact q (c :: x) (r ++ y) []) in Hfit by assumption.
        now rewrite app_nil_r in Hfit.
    + destruct (IH Hocc) as [Hx | Hy]; [left | now right].
      now apply occursIn_cons.
Qed.

Lemma no_heading_around (r x y : jsstring) :
  inert headingOpenShape r /\ inert headingCloseShape r ->
  hasHeadingTag x = false -> hasHeadingTag y = false ->
  hasHeadingTag (x ++ r ++ y) = false.
Proof.
  unfold hasHeadingTag. intros [Ho Hc] Hx Hy.
  apply orb_false_iff in Hx. destruct Hx as [Hxo Hxc].
  apply orb_false_iff in Hy. destruct Hy as [Hyo Hyc].
  apply orb_false_iff. split.
  - destruct (occursIn headingOpenShape (x ++ r ++ y)) eqn:E; [| reflexivity].
    destruct (@inert_split _ _ _ _ Ho E); congruence.
  - destruct (occursIn headingCloseShape (x ++ r ++ y)) eqn:E; [| reflexivity].
    destruct (@inert_split _ _ _ _ Hc E); congruence.
Qed.

Lemma fits_needs_tag (q : Shape) (s : jsstring) :
  ~ In (chr "<") s -> fits (N.eqb (chr "<") :: q) s = false.
Proof.
  destruct s as [|c s]; [reflexivity|]. intros H. cbn [fits].
  destruct (chr "<" =? c)%N eqn:E; [| reflexivity].
  apply N.eqb_eq in E. exfalso. apply H. now left.
Qed.

Lemma no_heading_without_tags (s : jsstring) :
  ~ In (chr "<") s -> hasHeadingTag s = false.
Proof.
  unfold hasHeadingTag, headingOpenShape, headingCloseShape.
  induction s as [|c s IH]; intros H; [reflexivity|].
  cbn [occursIn]. rewrite !fits_needs_tag by assumption. cbn [orb].
  apply IH. intros Hin. apply H. now right.
Qed.

Lemma join_no_heading (parts : list jsstring) :
  Forall (fun part => hasHeadingTag part = false) parts ->
  hasHeadingTag (join [newline] parts) = false.
Proof.
  induction 1 as [|part parts Hp Hrest IH]; [reflexivity|].
  destruct parts as [|next parts]; [exact Hp|].
  change (join [newline] (part :: next :: parts))
    with (part ++ [newline] ++ join [newline] (next :: parts)).
  apply no_heading_around; auto. inert_by_test.
Qed.

Lemma renderCategory_without_tags (category : jsstring) :
  ~ In (chr "<") category -> ~ In (chr "<") (renderCategory category).
Proof.
  intros Hc. unfold renderCategory.
  destruct category as [|c rest].
  - vm_compute. intros H.
    repeat (destruct H as [H | H]; [discriminate H |]). exact H.
  - destruct (isLowerAsciiLetter c); intros H;
      repeat (apply in_app_or in H; destruct H as [H | H]);
      try contradiction;
      repeat (destruct H as [H | H]; [discriminate H |]); exact H.
Qed.

Section DocumentProperties.
Context {host : Host}.

Lemma fragment_no_heading (reflection : DeclarationReflection)
  (context : RenderContext JsxNode) :
  bracketsClosed (renderContent reflection context) = true ->
  ~ In (chr "<") (getFriendlyFullName reflection) ->
  hasHeadingTag (renderReflection reflection context) = false.
Proof.
  intros Hb Hn. unfold renderReflection.
  replace (lit "### `" ++ getFriendlyFullName reflection ++ lit "`"
             ++ [newline; newline]
             ++ sanitize (renderContent reflection context) ++ [newline])
    with ((lit "### `" ++ getFriendlyFullName reflection ++ lit "`")
            ++ [newline; newline]
            ++ (sanitize (renderContent reflection context)
                  ++ [newline] ++ []))
    by (now rewrite <- !app_assoc).
  apply no_heading_around; [inert_by_test | |].
  - apply no_heading_without_tags. intros H.
    repeat (apply in_app_or in H; destruct H as [H | H]);
      try contradiction;
      repeat (destruct H as [H | H]; [discriminate H |]); exact H.
  - apply no_heading_around; [inert_by_test | | reflexivity].
    now apply sanitize_no_heading.
Qed.

(** C7.  After the rewrites that come before the removal of
    the [@TJS-type] paragraphs no [<h1] ... [<h6] and no [</h1>] ...
    [</h6>] is left in any content.  The removal keeps it so for content
    in which every [<] is closed by a [>] before the next [<], as it is in
    markup whose text has its angle brackets escaped.  Each opening tag
    [<hN] of the content stands in the sanitized content as
    [<div data-typedoc-h="N"].  When the content of every declaration is
    such markup and no name or category label has a [<] in it, the
    document that [load] writes has no heading tag in it. *)
Theorem C7_headings_neutralized (proj : ProjectReflection) :
  (forall content,
      hasHeadingTag (escapeForMintlify content) = false
      /\ (bracketsClosed content = true ->
          hasHeadingTag (sanitize content) = false)
      /\ (forall before level after,
            content = before ++ [chr "<"; chr "h"; level] ++ after ->
            isLevelDigit level = true ->
            exists written,
              sanitize content = written ++ divOpen level ++ sanitize after))
  /\ ((forall event declaration,
         In event (buildPageEvents proj) ->
         asDeclaration (model event) = Some declaration ->
         bracketsClosed
           (renderContent declaration (getRenderContext event)) = true
         /\ ~ In (chr "<") (getFriendlyFullName declaration)
         /\ ~ In (chr "<") (getReflectionCategory declaration)) ->
      hasHeadingTag (load proj) = false).
Proof.
  split.
  - intros content. split; [| split].
    + apply escapeForMintlify_no_heading.
    + apply sanitize_no_heading.
    + intros before level after -> Hlevel. now apply sanitize_writes_div.
  - intros Hall.
    destruct (pageElements_buckets (buildPageEvents proj)) as (Hel & _ & Hin).
    assert (Hdecl : forall e,
               In e (declarationEventsOf (buildPageEvents proj)) ->
               exists d, In e (buildPageEvents proj)
                         /\ asDeclaration (model e) = Some d).
    { intros e He.
      apply (Permutation_in _ (declarationEventsOf_perm _)) in He.
      apply filter_In in He. destruct He as [He Hd].
      unfold isDeclarationReflectionEvent in Hd.
      destruct (asDeclaration (model e)) as [d|] eqn:Ed; [eauto | discriminate]. }
    rewrite load_layout. unfold renderPageEvents. rewrite Hel.
    set (body := join [newline] _).
    replace (frontMatter ++ [newline] ++ anchorTarget ++ [newline; newline]
               ++ body)
      with ((frontMatter ++ [newline] ++ anchorTarget) ++ [newline; newline]
               ++ body)
      by (now rewrite <- !app_assoc).
    apply no_heading_around; [inert_by_test | vm_compute; reflexivity |].
    subst body.
    apply join_no_heading. apply Forall_forall. intros part Hpart.
    apply in_flat_map in Hpart. destruct Hpart as (c & Hc & Hpart).
    apply Hin in Hc. destruct Hc as (e & He & Ecat).
    destruct Hpart as [<- | Hpart].
    + apply no_heading_without_tags, renderCategory_without_tags.
      destruct (Hdecl e He) as (d & Hev & Ed).
      destruct (Hall e d Hev Ed) as (_ & _ & Hcat).
      subst c. unfold eventCategory. now rewrite Ed.
    + apply in_map_iff in Hpart. destruct Hpart as (e' & <- & He').
      apply filter_In in He'. destruct He' as [He' _].
      destruct (Hdecl e' He') as (d & Hev & Ed).
      destruct (Hall e' d Hev Ed) as (Hb & Hname & _).
      unfold eventFragment. rewrite Ed. now apply fragment_no_heading.
Qed.

End DocumentProperties.

(** A [@TJS-type] paragraph between [<] and [h1>]: its removal splices a
    heading tag together, next to the one that was converted. *)
Lemma C7_spliced_heading_counterexample :
  let content := lit "<h1>a</h1><<p>@TJS-type x</p>h1>" in
  hasHeadingTag content = true
  /\ sanitize content
     = lit "<div data-typedoc-h=" ++ [dquote] ++ lit "1" ++ [dquote]
       ++ lit ">a</div><h1>"
  /\ hasHeadingTag (sanitize content) = true.
Proof. repeat split; vm_compute; reflexivity. Qed.

(** A page whose member rendering has an [h4] heading: the heading is
    written as a [div] and the document has no heading tag. *)
Lemma C7_headings_witness :
  let content := renderContent (host := sampleHost) toolDeclaration
                   sample_context in
  hasHeadingTag content = true
  /\ hasHeadingTag (sanitize content) = false
  /\ (exists written,
        sanitize content
        = written ++ divOpen (chr "4")
          ++ sanitize (lit ">name</h4></section>"))
  /\ hasHeadingTag (load (host := sampleHost) toolProject) = false.
Proof.
  intros content.
  destruct (C7_headings_neutralized (host := sampleHost) toolProject)
    as (Hcontent & Hdocument).
  destruct (Hcontent content) as (_ & Hclosed & Hdiv).
  split; [vm_compute; reflexivity | split; [| split]].
  - apply Hclosed. vm_compute. reflexivity.
  - apply (Hdiv (lit "<p>Tool</p><section>") (chr "4")
             (lit ">name</h4></section>")); vm_compute; reflexivity.
  - apply Hdocument. intros event declaration Hin Hd.
    simpl in Hin.
    destruct Hin as [<- | [<- | []]]; injection Hd as <-;
      (split; [vm_compute; reflexivity |]);
      (split; vm_compute; intros H;
       repeat (destruct H as [H | H]; [discriminate H |]); exact H).
Defined.

(** * Further properties *)

(** ** Anchors and URLs *)

Lemma replaceAll_pathSeparator_map (s : jsstring) :
  replaceAll pathSeparator s = map hyphenate s.
Proof.
  induction s as [|c s IH]; [reflexivity|].
  unfold replaceAll in *. cbn [replaceAllFrom map].
  unfold pathSeparator at 1, hyphenate at 1, isPathSeparator.
  destruct (orb _ _); cbn [pred app]; now rewrite IH.
Qed.

Lemma startsWith_app (pattern rest : jsstring) :
  startsWith pattern (pattern ++ rest) = true.
Proof.
  induction pattern as [|p pattern IH]; [reflexivity|].
  cbn [app startsWith]. now rewrite N.eqb_refl, IH.
Qed.

Lemma skipn_app_exact {A} (a b : list A) : skipn (length a) (a ++ b) = b.
Proof. induction a as [|x a IH]; [reflexivity | exact IH]. Qed.

Lemma replaceFirst_unfold (pattern replacement s : jsstring) :
  replaceFirst pattern replacement s
  = if startsWith pattern s
    then replacement ++ skipn (length pattern) s
    else match s with
         | [] => []
         | c :: rest => c :: replaceFirst pattern replacement rest
         end.
Proof. destruct s; reflexivity. Qed.

(** [.html] is cut where it first stands, after a base without a dot. *)
Lemma replaceFirst_html (base rest : jsstring) :
  ~ In (chr ".") base ->
  replaceFirst (lit ".html") [] (base ++ lit ".html" ++ rest) = base ++ rest.
Proof.
  induction base as [|c base IH]; intros Hb.
  - cbn [app]. rewrite replaceFirst_unfold, startsWith_app.
    now rewrite skipn_app_exact.
  - cbn [app]. rewrite replaceFirst_unfold.
    assert (Hc : (chr "." =? c)%N = false).
    { apply N.eqb_neq. intros E. apply Hb. now left. }
    change (lit ".html") with (chr "." :: lit "html") at 1.
    cbn [startsWith]. rewrite Hc. cbn [andb]. f_equal.
    apply IH. intros H. apply Hb. now right.
Qed.

Lemma replaceFirst_no_dot (url : jsstring) :
  ~ In (chr ".") url -> replaceFirst (lit ".html") [] url = url.
Proof.
  induction url as [|c url IH]; intros Hu; [reflexivity|].
  rewrite replaceFirst_unfold.
  assert (Hc : (chr "." =? c)%N = false).
  { apply N.eqb_neq. intros E. apply Hu. now left. }
  change (lit ".html") with (chr "." :: lit "html") at 1.
  cbn [startsWith]. rewrite Hc. cbn [andb]. f_equal.
  apply IH. intros H. apply Hu. now right.
Qed.

Lemma hyphenate_latin1 (s : jsstring) :
  forallb isLatin1 s = true -> forallb isLatin1 (map hyphenate s) = true.
Proof.
  induction s as [|c s IH]; [reflexivity|].
  cbn [forallb map]. intros H. apply andb_true_iff in H. destruct H as [Hc Hs].
  apply andb_true_iff. split; [| now apply IH].
  unfold hyphenate. destruct (isPathSeparator c); [reflexivity | exact Hc].
Qed.

Lemma forallb_app_inv {A} (p : A -> bool) (a b : list A) :
  forallb p (a ++ b) = true -> forallb p a = true /\ forallb p b = true.
Proof. rewrite forallb_app. apply andb_true_iff. Qed.

Section UrlProperties.
Context {host : Host}.

Lemma undocumentedProperty_dec (target : Reflection) :
  undocumentedProperty target \/ ~ undocumentedProperty target.
Proof.
  destruct target as [d | | | | |];
    try (right; intros (S & E & _); discriminate E).
  destruct (ReflectionKind_eqb (decl_kind d) KProperty) eqn:Ek.
  - apply ReflectionKind_eqb_eq in Ek.
    destruct (hasComment d) eqn:Eh.
    + right. intros (S & E & _ & Hc). injection E as <-. congruence.
    + left. exists d. auto.
  - right. intros (S & E & Hk & _). injection E as <-.
    apply ReflectionKind_eqb_eq in Hk. congruence.
Qed.

Lemma getAnchor_by_units (target : Reflection) (url : jsstring) :
  lowersLatin1 toLowerCase ->
  ~ undocumentedProperty target ->
  super_getFullUrl target = Some url ->
  forallb isLatin1 (replaceFirst (lit ".html") [] url) = true ->
  getAnchor target
  = Some (map anchorUnit (replaceFirst (lit ".html") [] url)).
Proof.
  intros Hlaw Hn Hurl Hl. rewrite (getAnchor_derived Hn), Hurl.
  rewrite replaceAll_pathSeparator_map.
  rewrite Hlaw by now apply hyphenate_latin1.
  now rewrite map_map.
Qed.

(** Whatever [#] the inherited URL has in it, the URL that the plugin
    gives for the target is a fragment reference of the page: one [#], at
    the front, and the anchor after it.  No URL is given only where the
    inherited router has none and the target is not an undocumented
    property. *)
Theorem getFullUrl_single_hash (target : Reflection) :
  lowersWithoutSeparators toLowerCase ->
  (forall url,
      getFullUrl target = Some url ->
      exists anchor,
        getAnchor target = Some anchor
        /\ url = chr "#" :: anchor
        /\ ~ In (chr "#") anchor
        /\ count_occ N.eq_dec url (chr "#") = 1)
  /\ (getFullUrl target = None <->
      ~ undocumentedProperty target /\ super_getFullUrl target = None).
Proof.
  intros Hlaw.
  assert (Hhash : forall anchor,
             getAnchor target = Some anchor -> ~ In (chr "#") anchor).
  { intros anchor Ha.
    destruct (undocumentedProperty_dec target) as [Hu | Hn].
    - rewrite (getAnchor_undocumented Hu) in Ha. injection Ha as <-. tauto.
    - rewrite (getAnchor_derived Hn) in Ha.
      destruct (super_getFullUrl target) as [inherited|]; [| discriminate].
      injection Ha as <-. intros Hin.
      assert (Hclean := lowered_without_separators Hlaw
                          (replaceAll_pathSeparator_clean
                             (replaceFirst (lit ".html") [] inherited))).
      rewrite Forall_forall in Hclean. apply Hclean in Hin.
      discriminate Hin. }
  split.
  - intros url. unfold getFullUrl.
    destruct (getAnchor target) as [anchor|]; [| discriminate].
    intros [= <-]. exists anchor.
    split; [reflexivity | split; [reflexivity | split; [now apply Hhash |]]].
    change (lit "#" ++ anchor) with (chr "#" :: anchor).
    rewrite count_occ_cons_eq by reflexivity.
    f_equal. apply count_occ_not_In. now apply Hhash.
  - unfold getFullUrl.
    destruct (undocumentedProperty_dec target) as [Hu | Hn].
    + rewrite (getAnchor_undocumented Hu). split; [discriminate | tauto].
    + rewrite (getAnchor_derived Hn).
      destruct (super_getFullUrl target); split; try discriminate; auto.
      intros [_ H]. discriminate H.
Qed.

(** For a target that is not an undocumented property and whose URL is
    text of Basic Latin and Latin-1, the anchor is the URL, code unit by
    code unit lower-cased with hyphens for [.], [/] and [#].  The [.html]
    that follows a base without a dot is cut out first, and only that
    one: a later [.html] is kept, as [-html].  A URL without a dot keeps
    its length. *)
Theorem getAnchor_by_code_units (target : Reflection) (url : jsstring) :
  lowersLatin1 toLowerCase ->
  ~ undocumentedProperty target ->
  super_getFullUrl target = Some url ->
  forallb isLatin1 url = true ->
  (forall base rest,
      url = base ++ lit ".html" ++ rest ->
      ~ In (chr ".") base ->
      exists anchor,
        getAnchor target = Some anchor
        /\ anchor = map anchorUnit base ++ map anchorUnit rest
        /\ length anchor + 5 = length url)
  /\ (~ In (chr ".") url -> getAnchor target = Some (map anchorUnit url)).
Proof.
  intros Hlaw Hn Hurl Hl. split.
  - intros base rest E Hbase. subst url. eexists. split; [| split].
    + rewrite (getAnchor_by_units Hlaw Hn Hurl);
        rewrite replaceFirst_html by assumption.
      * reflexivity.
      * apply forallb_app_inv in Hl. destruct Hl as [Hb Hr].
        apply forallb_app_inv in Hr. destruct Hr as [_ Hr].
        rewrite forallb_app. now rewrite Hb, Hr.
    + apply map_app.
    + rewrite !length_map, !length_app. simpl. lia.
  - intros Hdot.
    rewrite (getAnchor_by_units Hlaw Hn Hurl);
      rewrite replaceFirst_no_dot by assumption; [reflexivity | exact Hl].
Qed.

End UrlProperties.

Lemma getFullUrl_single_hash_witness :
  exists anchor,
    getAnchor (host := sampleHost) (OfSignature (lit "call")) = Some anchor
    /\ anchor = lit "types-schema-call"
    /\ count_occ N.eq_dec (chr "#" :: anchor) (chr "#") = 1.
Proof.
  destruct (proj1 (getFullUrl_single_hash (host := sampleHost)
                     (OfSignature (lit "call"))
                     sample_lowersWithoutSeparators)
              (lit "#types-schema-call") eq_refl)
    as (anchor & Ha & E & _ & Hc).
  exists anchor. split; [exact Ha | split].
  - now injection E.
  - now rewrite <- E.
Defined.

Lemma getAnchor_by_code_units_witness :
  (exists anchor,
      getAnchor (host := sampleHost)
        (OfDeclaration (Declaration (lit "Tool.html") KInterface None None None))
      = Some anchor
      /\ anchor = lit "types-tool" ++ lit "-html"
      /\ length anchor + 5 = length (lit "types/Tool.html.html"))
  /\ getAnchor (host := sampleHost)
       (OfDeclaration
          (Declaration (201%N :: lit "cole") KInterface None None None))
     = Some (lit "types-" ++ 233%N :: lit "cole").
Proof.
  assert (Hpage : forall name,
             ~ undocumentedProperty (host := sampleHost)
                 (OfDeclaration (Declaration name KInterface None None None))).
  { intros name (S & E & Hk & _). injection E as <-. discriminate Hk. }
  split.
  - apply (proj1 (getAnchor_by_code_units (host := sampleHost)
                    sample_lowersLatin1 (Hpage (lit "Tool.html"))
                    eq_refl eq_refl)
             (lit "types/Tool") (lit ".html")).
    + reflexivity.
    + vm_compute. intros H.
      repeat (destruct H as [H | H]; [discriminate H |]). exact H.
  - destruct (proj1 (getAnchor_by_code_units (host := sampleHost)
                       sample_lowersLatin1 (Hpage (201%N :: lit "cole"))
                       eq_refl eq_refl)
                (lit "types/" ++ 201%N :: lit "cole") [])
      as (anchor & Ha & E & _).
    + reflexivity.
    + vm_compute. intros H.
      repeat (destruct H as [H | H]; [discriminate H |]). exact H.
    + rewrite Ha, E. reflexivity.
Defined.

(** ** The comment filter on other types *)

Section CommentFilterEdges.
Context {host : Host}.

(** Only an inline object type is searched: for a member of any other
    type, an array or a union of inline objects included, and whatever
    children the member itself has, the answer is the host's answer for
    the member alone. *)
Theorem hasComment_only_inline_objects (member : DeclarationReflection) :
  (forall declaration, decl_type member <> Some (ReflectionType declaration)) ->
  hasComment member = Reflection_hasComment member
  /\ (Reflection_hasComment member = false ->
      forall context parent,
        decl_children parent = Some [member] ->
        documentedMembers parent = []
        /\ renderContent parent context
           = renderFragment [ownContent context parent; JsxArray []]).
Proof.
  intros Htype.
  assert (E : hasComment member = Reflection_hasComment member).
  { rewrite hasComment_unfold. unfold nestedChildren.
    destruct (decl_type member) as [[declaration | | | | |]|];
      try apply orb_false_r.
    now destruct (Htype declaration). }
  split; [exact E|].
  intros Hc context parent Hp.
  assert (Hm : documentedMembers parent = []).
  { unfold documentedMembers. rewrite Hp. cbn [filter].
    now rewrite E, Hc. }
  split; [exact Hm|].
  unfold renderContent, renderJsxElements, ownContent. now rewrite Hm.
Qed.

End CommentFilterEdges.

Lemma hasComment_only_inline_objects_witness :
  hasComment (host := sampleHost) leafOnly = true
  /\ hasComment (host := sampleHost) arrayOfRecords = false.
Proof.
  split; [reflexivity|].
  rewrite (proj1 (hasComment_only_inline_objects (host := sampleHost)
                    arrayOfRecords
                    ltac:(intros declaration; discriminate))).
  reflexivity.
Defined.

(** ** The default bucket *)

Lemma join_space_empty (parts : list jsstring) :
  join (lit " ") parts = [] <-> parts = [] \/ parts = [[]].
Proof.
  destruct parts as [|p [|q rest]].
  - cbn [join]. tauto.
  - cbn [join]. split.
    + intros ->. now right.
    + intros [H | H]; [discriminate | now injection H].
  - split.
    + change (join (lit " ") (p :: q :: rest))
        with (p ++ lit " " ++ join (lit " ") (q :: rest)).
      intros H. apply app_eq_nil in H. destruct H as [_ H]. discriminate H.
    + intros [H | H]; discriminate H.
Qed.

Section DefaultBucket.
Context {host : Host}.

(** A declaration goes to the default bucket exactly when its comment has
    no category tag, or the tag has no parts, or it has one part with an
    empty text. *)
Theorem default_category_iff (d : DeclarationReflection) :
  getReflectionCategory d = [] <->
  categoryTagOfDeclaration d = None
  \/ exists categoryTag,
      categoryTagOfDeclaration d = Some categoryTag
      /\ (content categoryTag = []
          \/ exists part, content categoryTag = [part] /\ text part = []).
Proof.
  unfold getReflectionCategory, categoryTagOfDeclaration.
  destruct (match decl_comment d with
            | Some c => Comment_getTag c (lit "@category")
            | None => None
            end) as [categoryTag|].
  - rewrite join_space_empty. split.
    + intros H. right. exists categoryTag. split; [reflexivity|].
      destruct (content categoryTag) as [|part [|part' rest]];
        cbn [map] in H.
      * now left.
      * right. exists part. split; [reflexivity|].
        destruct H as [H | H]; [discriminate | now injection H].
      * destruct H as [H | H]; discriminate H.
    + intros [H | (t & E & H)]; [discriminate|].
      injection E as <-.
      destruct H as [-> | (part & -> & Hp)]; [now left | right].
      cbn [map]. now rewrite Hp.
  - split; [now left | reflexivity].
Qed.

End DefaultBucket.

(** ** The page: what goes in and what comes out *)

Lemma flat_map_nil {A B} (l : list A) :
  flat_map (fun _ : A => @nil B) l = [].
Proof. induction l; auto. Qed.

Lemma insertSorted_sorted_by {A} (cmp : A -> A -> comparison) (x : A)
  (l : list A) :
  (forall a b, cmp a b = Gt -> cmp b a <> Gt) ->
  (forall a b c, cmp a b <> Gt -> cmp b c <> Gt -> cmp a c <> Gt) ->
  StronglySorted (fun a b => cmp a b <> Gt) l ->
  StronglySorted (fun a b => cmp a b <> Gt) (insertSorted cmp x l).
Proof.
  intros Htotal Htrans. induction 1 as [|y l Hs IH Hy]; simpl.
  - repeat constructor.
  - destruct (cmp x y) eqn:E.
    + constructor; [now constructor|].
      constructor; [congruence|].
      eapply Forall_impl; [| exact Hy].
      intros z Hz. apply (Htrans x y z); congruence.
    + constructor; [now constructor|].
      constructor; [congruence|].
      eapply Forall_impl; [| exact Hy].
      intros z Hz. apply (Htrans x y z); congruence.
    + constructor; [exact IH|].
      eapply Permutation_Forall; [symmetry; apply insertSorted_perm|].
      constructor; [now apply Htotal | assumption].
Qed.

Lemma sortWith_sorted_by {A} (cmp : A -> A -> comparison) (l : list A) :
  (forall a b, cmp a b = Gt -> cmp b a <> Gt) ->
  (forall a b c, cmp a b <> Gt -> cmp b c <> Gt -> cmp a c <> Gt) ->
  StronglySorted (fun a b => cmp a b <> Gt) (sortWith cmp l).
Proof.
  intros Htotal Htrans. induction l as [|x l IH]; simpl; [constructor|].
  now apply insertSorted_sorted_by.
Qed.

Lemma filter_sorted {A} (R : A -> A -> Prop) (keep : A -> bool) (l : list A) :
  StronglySorted R l -> StronglySorted R (filter keep l).
Proof.
  induction 1 as [|x l Hs IH Hx]; simpl; [constructor|].
  destruct (keep x); [| exact IH].
  constructor; [exact IH|].
  apply Forall_forall. intros y Hy. apply filter_In in Hy.
  rewrite Forall_forall in Hx. now apply Hx.
Qed.

Lemma compareCodeUnits_consistent : consistentComparator compareCodeUnits.
Proof.
  split.
  - intros a b H. rewrite compareCodeUnits_antisym, H. discriminate.
  - intros a b c Hab Hbc.
    destruct (compareCodeUnits a b) eqn:E1; [| | congruence].
    + apply compareCodeUnits_eq in E1. now subst.
    + destruct (compareCodeUnits b c) eqn:E2; [| | congruence].
      * apply compareCodeUnits_eq in E2. subst. congruence.
      * assert (H : codeUnitLt a c) by (eapply codeUnitLt_trans; eauto).
        unfold codeUnitLt in H. congruence.
Qed.

Section PageContents.
Context {host : Host}.

Lemma buckets_share_declarations (declarations : list PageEvent)
  (categories : list jsstring) :
  Permutation
    (flat_map (bucketOf declarations) categories)
    (map renderCategory categories
       ++ map eventFragment
            (flat_map
               (fun c => filter (fun e => jsstring_eqb (eventCategory e) c)
                                declarations)
               categories)).
Proof.
  induction categories as [|c categories IH]; [reflexivity|].
  cbn [flat_map map]. unfold bucketOf at 1.
  rewrite map_app. cbn [app]. constructor.
  rewrite IH. rewrite !app_assoc. apply Permutation_app_tail.
  apply Permutation_app_comm.
Qed.

Lemma unlabelled_by (e : PageEvent) (rest : list PageEvent)
  (categories : list jsstring) :
  ~ In (eventCategory e) categories ->
  flat_map (fun c => filter (fun e' => jsstring_eqb (eventCategory e') c)
                            (e :: rest)) categories
  = flat_map (fun c => filter (fun e' => jsstring_eqb (eventCategory e') c)
                              rest) categories.
Proof.
  induction categories as [|c categories IH]; intros Hn; [reflexivity|].
  cbn [flat_map filter].
  destruct (jsstring_eqb (eventCategory e) c) eqn:E.
  - apply jsstring_eqb_eq in E. exfalso. apply Hn. now left.
  - f_equal. apply IH. intros H. apply Hn. now right.
Qed.

Lemma labelled_once (e : PageEvent) (rest : list PageEvent)
  (categories : list jsstring) :
  NoDup categories -> In (eventCategory e) categories ->
  Permutation
    (flat_map (fun c => filter (fun e' => jsstring_eqb (eventCategory e') c)
                               (e :: rest)) categories)
    (e :: flat_map (fun c => filter (fun e' => jsstring_eqb (eventCategory e') c)
                                    rest) categories).
Proof.
  induction 1 as [|c categories Hc Hnd IH]; intros Hin; [destruct Hin|].
  pose proof (@unlabelled_by e rest categories) as Hun.
  set (F := fun c0 => filter (fun e' => jsstring_eqb (eventCategory e') c0)
                             (e :: rest)) in *.
  set (G := fun c0 => filter (fun e' => jsstring_eqb (eventCategory e') c0)
                             rest) in *.
  cbn [flat_map].
  assert (EF : F c = if jsstring_eqb (eventCategory e) c
                     then e :: G c else G c) by reflexivity.
  rewrite EF.
  destruct (jsstring_eqb (eventCategory e) c) eqn:E.
  - apply jsstring_eqb_eq in E. subst c.
    rewrite (Hun Hc). reflexivity.
  - destruct Hin as [Hin | Hin];
      [subst c; now rewrite jsstring_eqb_refl in E|].
    rewrite (IH Hin). apply Permutation_sym, Permutation_middle.
Qed.

Lemma declarations_partitioned (declarations : list PageEvent)
  (categories : list jsstring) :
  NoDup categories ->
  (forall e, In e declarations -> In (eventCategory e) categories) ->
  Permutation
    (flat_map (fun c => filter (fun e => jsstring_eqb (eventCategory e) c)
                               declarations) categories)
    declarations.
Proof.
  intros Hnd. induction declarations as [|e rest IH]; intros Hall.
  - cbn [filter]. now rewrite flat_map_nil.
  - rewrite labelled_once by (auto; apply Hall; now left).
    constructor. apply IH. intros e' He'. apply Hall. now right.
Qed.

Lemma strictly_sorted_NoDup (l : list jsstring) :
  StronglySorted codeUnitLt l -> NoDup l.
Proof.
  induction 1 as [|a l _ IH Ha]; constructor; [| exact IH].
  intros Hin. rewrite Forall_forall in Ha.
  now apply (@codeUnitLt_irrefl a), Ha.
Qed.

(** Nothing is lost and nothing is repeated: the elements of the page are,
    up to their order, one heading for each label that a declaration
    carries and one fragment for each declaration event of the input.
    Events whose model is not a declaration leave no trace. *)
Theorem page_has_each_declaration_once (events : list PageEvent) :
  exists categories,
    NoDup categories
    /\ (forall c, In c categories <->
                  exists e, In e events
                            /\ isDeclarationReflectionEvent e = true
                            /\ eventCategory e = c)
    /\ Permutation
         (pageElements events)
         (map renderCategory categories
            ++ map eventFragment (filter isDeclarationReflectionEvent events))
    /\ length (pageElements events)
       = length categories
         + length (filter isDeclarationReflectionEvent events).
Proof.
  destruct (pageElements_buckets events) as (Hel & Hs & Hin).
  set (declarations := declarationEventsOf events) in *.
  set (categories := sortWith compareCodeUnits _) in *.
  assert (Hnd : NoDup categories) by (now apply strictly_sorted_NoDup).
  assert (Hperm : Permutation (pageElements events)
                    (map renderCategory categories
                       ++ map eventFragment
                            (filter isDeclarationReflectionEvent events))).
  { rewrite Hel, buckets_share_declarations.
    apply Permutation_app_head, Permutation_map.
    rewrite declarations_partitioned.
    - apply declarationEventsOf_perm.
    - exact Hnd.
    - intros e He. apply Hin. eauto. }
  exists categories. split; [exact Hnd | split; [| split; [exact Hperm |]]].
  - intros c. rewrite Hin. split.
    + intros (e & He & E).
      apply (Permutation_in _ (declarationEventsOf_perm events)) in He.
      apply filter_In in He. destruct He. eauto.
    + intros (e & He & Hd & E). exists e. split; [| exact E].
      apply (Permutation_in _ (Permutation_sym (declarationEventsOf_perm events))).
      apply filter_In. auto.
  - rewrite (Permutation_length Hperm), length_app, !length_map. reflexivity.
Qed.

(** A heading is written only with a declaration under it: every bucket
    of the page has its heading and at least one fragment, that of a
    declaration with the label of the bucket. *)
Theorem no_bucket_without_declaration (events : list PageEvent) :
  exists categories,
    pageElements events
    = flat_map (bucketOf (declarationEventsOf events)) categories
    /\ forall c, In c categories ->
         exists e more,
           In e (declarationEventsOf events)
           /\ eventCategory e = c
           /\ bucketOf (declarationEventsOf events) c
              = renderCategory c :: eventFragment e :: more.
Proof.
  destruct (pageElements_buckets events) as (Hel & _ & Hin).
  eexists. split; [exact Hel|].
  intros c Hc. apply Hin in Hc. destruct Hc as (e & He & E).
  unfold bucketOf.
  destruct (filter (fun event => jsstring_eqb (eventCategory event) c)
                   (declarationEventsOf events)) as [|e0 more] eqn:Ef.
  - exfalso. assert (H : In e []); [| destruct H].
    rewrite <- Ef. apply filter_In. split; [exact He|].
    now apply jsstring_eqb_eq.
  - assert (H0 : In e0 (e0 :: more)) by now left.
    rewrite <- Ef in H0. apply filter_In in H0. destruct H0 as [H0 E0].
    apply jsstring_eqb_eq in E0.
    exists e0, (map eventFragment more). auto.
Qed.

(** With a comparator that orders the names consistently, the declaration
    events are rendered in ascending order of their names, and so are the
    declarations inside every bucket. *)
Theorem declarations_in_name_order (events : list PageEvent) :
  consistentComparator localeCompare ->
  StronglySorted nameNotAfter (declarationEventsOf events)
  /\ forall c,
       StronglySorted nameNotAfter
         (filter (fun e => jsstring_eqb (eventCategory e) c)
                 (declarationEventsOf events)).
Proof.
  intros [Htotal Htrans].
  assert (Hs : StronglySorted nameNotAfter (declarationEventsOf events)).
  { unfold declarationEventsOf, nameNotAfter. apply sortWith_sorted_by.
    - intros a b. unfold compareEventNames. apply Htotal.
    - intros a b c. unfold compareEventNames. apply Htrans. }
  split; [exact Hs|]. intros c. now apply filter_sorted.
Qed.

(** Without a declaration page the body is empty: [load] writes the
    front matter and the anchor target and nothing after them. *)
Theorem load_without_declarations (proj : ProjectReflection) :
  (forall page, In page (buildPages proj) ->
                asDeclaration (page_model page) = None) ->
  load proj = frontMatter ++ [newline] ++ anchorTarget ++ [newline; newline].
Proof.
  intros Hpages. rewrite load_layout.
  assert (Hf : filter isDeclarationReflectionEvent (buildPageEvents proj) = []).
  { unfold buildPageEvents. induction (buildPages proj) as [|page pages IH];
      [reflexivity|].
    cbn [map filter]. unfold isDeclarationReflectionEvent at 1. cbn [model].
    rewrite (Hpages page) by now left.
    apply IH. intros page' Hin. apply Hpages. now right. }
  unfold renderPageEvents, pageElements, outputsByCategoryOf,
    declarationEventsOf.
  rewrite Hf. reflexivity.
Qed.

End PageContents.

Lemma join_ends_with_line_feed (sep : jsstring) (parts : list jsstring) :
  parts <> [] ->
  Forall (fun part => exists text, part = text ++ [newline]) parts ->
  exists text, join sep parts = text ++ [newline].
Proof.
  induction parts as [|part parts IH]; intros Hne Hall; [congruence|].
  inversion Hall as [|? ? Hp Hrest]; subst.
  destruct parts as [|next parts]; [exact Hp|].
  destruct IH as [text E]; [discriminate | exact Hrest |].
  exists (part ++ sep ++ text).
  change (join sep (part :: next :: parts))
    with (part ++ sep ++ join sep (next :: parts)).
  now rewrite E, <- !app_assoc.
Qed.

Section PageEnd.
Context {host : Host}.

Lemma renderCategory_ends_with_line_feed (category : jsstring) :
  exists text, renderCategory category = text ++ [newline].
Proof.
  unfold renderCategory. eexists. now rewrite app_assoc.
Qed.

Lemma renderReflection_ends_with_line_feed (reflection : DeclarationReflection)
  (context : RenderContext JsxNode) :
  exists text, renderReflection reflection context = text ++ [newline].
Proof.
  unfold renderReflection. eexists. now rewrite !app_assoc.
Qed.

(** Whatever the project, the text that [load] writes ends with a line
    feed: the body is empty, or its last element is a fragment, and every
    fragment ends with one. *)
Theorem load_ends_with_line_feed (proj : ProjectReflection) :
  exists text, load proj = text ++ [newline].
Proof.
  rewrite load_layout. unfold renderPageEvents.
  destruct (pageElements (buildPageEvents proj)) as [|first others] eqn:Ep.
  - exists (frontMatter ++ [newline] ++ anchorTarget ++ [newline]).
    cbn [join]. now rewrite <- !app_assoc.
  - destruct (@join_ends_with_line_feed [newline] (first :: others))
      as [text E]; [discriminate | |].
    + rewrite <- Ep.
      destruct (pageElements_buckets (buildPageEvents proj)) as (Hel & _ & _).
      rewrite Hel. apply Forall_forall. intros part Hpart.
      apply in_flat_map in Hpart. destruct Hpart as (c & _ & Hpart).
      destruct Hpart as [<- | Hpart];
        [apply renderCategory_ends_with_line_feed|].
      apply in_map_iff in Hpart. destruct Hpart as (e & <- & He).
      apply filter_In in He. destruct He as [He _].
      apply (Permutation_in _ (declarationEventsOf_perm _)) in He.
      apply filter_In in He. destruct He as [_ Hd].
      unfold isDeclarationReflectionEvent in Hd. unfold eventFragment.
      destruct (asDeclaration (model e)); [| discriminate].
      apply renderReflection_ends_with_line_feed.
    + exists (frontMatter ++ [newline] ++ anchorTarget ++ [newline; newline]
                ++ text).
      rewrite E. now rewrite <- !app_assoc.
Qed.

End PageEnd.

Lemma declarations_in_name_order_witness :
  let events :=
    [ eventOf threeLabels promptsDeclaration;
      eventOf threeLabels toolsDeclaration;
      eventOf threeLabels plainDeclaration ] in
  map (fun e => reflection_name (model e))
      (declarationEventsOf (host := sampleHost) events)
  = [lit "CallToolRequest"; lit "Cursor"; lit "GetPromptRequest"]
  /\ StronglySorted (nameNotAfter (host := sampleHost))
       (declarationEventsOf (host := sampleHost) events).
Proof.
  intros events. split; [reflexivity|].
  apply (proj1 (declarations_in_name_order (host := sampleHost) events
                  compareCodeUnits_consistent)).
Defined.

(** A project without declarations, for which the router yields the
    index and the list of modules. *)
Lemma load_without_declarations_witness :
  length (buildPages (Host := structureHost) emptyProject) = 2
  /\ load (host := structureHost) emptyProject
     = frontMatter ++ [newline] ++ anchorTarget ++ [newline; newline].
Proof.
  split; [reflexivity |].
  apply (load_without_declarations (host := structureHost)).
  intros page [<- | [<- | []]]; reflexivity.
Defined.

(** ** The sanitizer on plain text, indents and line feeds *)

(** Text with nothing to escape and no tag is left as it is. *)
Lemma plain_text_unchanged (text : jsstring) :
  Forall (fun c => isEscaped c = false) text -> ~ In (chr "<") text ->
  sanitize text = text.
Proof.
  intros He Ht.
  assert (Hx : forall x, isEscaped x = true -> ~ In x text)
    by (intros x Hx; now apply Forall_not_In, unescaped_without).
  destruct (@structuralRewrites_without_tags text Ht) as (E1 & E4 & E6).
  unfold sanitize, escapeForMintlify. rewrite E1.
  unfold reduceIndent, encodeNbsp.
  rewrite (@replaceAll_literal_absent nbsp [nbsp]) by (now apply Hx).
  rewrite (@replaceAll_literal_absent nbsp []) by (now apply Hx).
  rewrite E4. unfold escapeBracket, escapeUnderscore, escapeBrace.
  rewrite (@replaceAll_literal_absent (chr "[") []) by (now apply Hx).
  rewrite (@replaceAll_literal_absent (chr "_") []) by (now apply Hx).
  rewrite (@replaceAll_literal_absent (chr "{") []) by (now apply Hx).
  exact E6.
Qed.

Lemma literal_pair_at_run (rest : jsstring) :
  replaceAll (literal [nbsp; nbsp] [nbsp]) (nbsp :: nbsp :: rest)
  = nbsp :: replaceAll (literal [nbsp; nbsp] [nbsp]) rest.
Proof. reflexivity. Qed.

Lemma literal_pair_at_end (s : jsstring) :
  indentEnds s ->
  replaceAll (literal [nbsp; nbsp] [nbsp]) (nbsp :: s)
  = nbsp :: replaceAll (literal [nbsp; nbsp] [nbsp]) s.
Proof.
  intros Hs. apply replaceAll_copy. unfold literal.
  destruct s as [|c s]; [reflexivity|].
  cbn [startsWith]. simpl in Hs.
  replace (nbsp =? c)%N with false
    by (symmetry; apply N.eqb_neq; congruence).
  reflexivity.
Qed.

(** A run of [k] non-breaking spaces is reduced to half of it, rounded
    up. *)
Lemma reduceIndent_run (k : nat) (s : jsstring) :
  indentEnds s ->
  reduceIndent (repeat nbsp k ++ s)
  = repeat nbsp (Nat.div2 (S k)) ++ reduceIndent s.
Proof.
  intros Hs. unfold reduceIndent.
  assert (H : (replaceAll (literal [nbsp; nbsp] [nbsp]) (repeat nbsp k ++ s)
               = repeat nbsp (Nat.div2 (S k))
                 ++ replaceAll (literal [nbsp; nbsp] [nbsp]) s)
              /\ (replaceAll (literal [nbsp; nbsp] [nbsp])
                    (repeat nbsp (S k) ++ s)
                  = repeat nbsp (Nat.div2 (S (S k)))
                    ++ replaceAll (literal [nbsp; nbsp] [nbsp]) s)).
  { induction k as [|k [IH0 IH1]].
    - split; [reflexivity|]. cbn [repeat app Nat.div2].
      now apply literal_pair_at_end.
    - split; [exact IH1|].
      change (repeat nbsp (S (S k)) ++ s)
        with (nbsp :: nbsp :: repeat nbsp k ++ s).
      rewrite literal_pair_at_run, IH0. reflexivity. }
  exact (proj1 H).
Qed.

Lemma encodeNbsp_run (n : nat) (s : jsstring) :
  encodeNbsp (repeat nbsp n ++ s)
  = concat (repeat (lit "&nbsp;") n) ++ encodeNbsp s.
Proof.
  unfold encodeNbsp. induction n as [|n IH]; [reflexivity|].
  cbn [repeat app concat].
  rewrite (replaceAll_match (literal [nbsp] (lit "&nbsp;"))
             (s := nbsp :: repeat nbsp n ++ s) (len := 1)
             (replacement := lit "&nbsp;"))
    by (try discriminate; reflexivity).
  cbn [pred tl skipn]. now rewrite IH, <- app_assoc.
Qed.

Lemma in_concat_repeat (x : char) (r : jsstring) (n : nat) :
  In x (concat (repeat r n)) -> In x r.
Proof.
  induction n as [|n IH]; cbn [repeat concat]; intros H; [destruct H|].
  apply in_app_or in H. destruct H as [H | H]; auto.
Qed.

(** Plain text behind an indent of [k] non-breaking spaces comes out
    behind half as many [&nbsp;] entities, rounded up; without an indent
    it comes out as it went in. *)
Theorem sanitize_indented_text (k : nat) (text : jsstring) :
  Forall (fun c => isEscaped c = false) text -> ~ In (chr "<") text ->
  sanitize (repeat nbsp k ++ text)
  = concat (repeat (lit "&nbsp;") (Nat.div2 (S k))) ++ text
  /\ sanitize text = text.
Proof.
  intros He Ht. split; [| now apply plain_text_unchanged].
  assert (Hx : forall x, isEscaped x = true -> ~ In x text)
    by (intros x Hx; now apply Forall_not_In, unescaped_without).
  assert (Hends : indentEnds text).
  { destruct text as [|c text]; [exact I|]. simpl. intros E. subst c.
    apply (Hx nbsp eq_refl). now left. }
  assert (Hin : ~ In (chr "<") (repeat nbsp k ++ text)).
  { intros H. apply in_app_or in H. destruct H as [H | H]; [| tauto].
    apply repeat_spec in H. discriminate H. }
  set (out := concat (repeat (lit "&nbsp;") (Nat.div2 (S k))) ++ text).
  assert (Hout : forall x, (x = chr "<" \/ x = chr "[" \/ x = chr "_"
                            \/ x = chr "{") -> ~ In x out).
  { intros x Hx' H. unfold out in H. apply in_app_or in H.
    destruct H as [H | H].
    - apply in_concat_repeat in H.
      destruct Hx' as [-> | [-> | [-> | ->]]];
        repeat (destruct H as [H | H]; [discriminate H |]); exact H.
    - destruct Hx' as [-> | [-> | [-> | ->]]]; [tauto | | |].
      + now apply (Hx (chr "[") eq_refl).
      + now apply (Hx (chr "_") eq_refl).
      + now apply (Hx (chr "{") eq_refl). }
  destruct (@structuralRewrites_without_tags _ Hin) as (E1 & _ & _).
  destruct (@structuralRewrites_without_tags out (Hout _ (or_introl eq_refl)))
    as (_ & E4 & E6).
  unfold sanitize, escapeForMintlify. rewrite E1.
  rewrite reduceIndent_run by assumption.
  unfold reduceIndent at 1.
  rewrite (@replaceAll_literal_absent nbsp [nbsp]) by (now apply Hx).
  rewrite encodeNbsp_run. unfold encodeNbsp at 1.
  rewrite (@replaceAll_literal_absent nbsp []) by (now apply Hx).
  fold out. rewrite E4.
  unfold escapeBracket, escapeUnderscore, escapeBrace.
  rewrite (@replaceAll_literal_absent (chr "[") []) by (apply Hout; auto).
  rewrite (@replaceAll_literal_absent (chr "_") []) by (apply Hout; auto).
  rewrite (@replaceAll_literal_absent (chr "{") []) by (apply Hout; auto).
  exact E6.
Qed.

Lemma sanitize_indented_text_witness :
  sanitize ([nbsp; nbsp; nbsp; nbsp] ++ lit "name: string;")
  = lit "&nbsp;&nbsp;name: string;"
  /\ sanitize (lit "name: string;") = lit "name: string;".
Proof.
  apply (sanitize_indented_text 4 (text := lit "name: string;")).
  - repeat constructor.
  - vm_compute. intros H.
    repeat (destruct H as [H | H]; [discriminate H |]). exact H.
Defined.

(** ** The sanitizer and the tags *)

Lemma lineFeedBeforeTag_nonempty : lineFeedBeforeTag <> [].
Proof. discriminate. Qed.

Lemma fits_lineFeedBeforeTag (t : jsstring) :
  fits lineFeedBeforeTag t = true -> newlinesAhead t <> None.
Proof.
  destruct t as [|c0 [|c1 rest]]; unfold lineFeedBeforeTag; cbn [fits];
    rewrite ?andb_false_r; try discriminate.
  intros H.
  apply andb_true_iff in H. destruct H as [H0 H].
  apply andb_true_iff in H. destruct H as [H1 _].
  apply N.eqb_eq in H0, H1. subst c0 c1. discriminate.
Qed.

(** The removal of a paragraph does not bring a line feed before a [<]:
    the paragraph itself began with one. *)
Lemma removal_keeps_line_feeds_off (s : jsstring) (k : nat) :
  occursIn lineFeedBeforeTag s = false ->
  occursIn lineFeedBeforeTag (replaceAllFrom tjsTypeParagraph k s) = false.
Proof.
  revert k. induction s as [|c rest IH]; intros k Hs; [exact Hs|].
  cbn [occursIn] in Hs. apply orb_false_iff in Hs. destruct Hs as [Hfit Hrest].
  cbn [replaceAllFrom]. destruct k as [|k]; [| now apply IH].
  destruct (tjsTypeParagraph (c :: rest)) as [[len r]|] eqn:Em.
  - apply tjsTypeParagraph_inv in Em. destruct Em as (-> & _).
    now apply IH.
  - cbn [occursIn]. apply orb_false_iff. split; [| now apply IH].
    unfold lineFeedBeforeTag in *. cbn [fits] in *.
    destruct (newline =? c)%N; [| reflexivity]. cbn [andb] in *.
    destruct rest as [|c1 rest']; [reflexivity|].
    cbn [replaceAllFrom].
    destruct (tjsTypeParagraph (c1 :: rest')) as [[len r]|] eqn:Em1.
    + apply tjsTypeParagraph_at_tag in Em1. destruct Em1 as [rest'' E].
      injection E as -> _. rewrite N.eqb_refl in Hfit. discriminate Hfit.
    + exact Hfit.
Qed.

(** In sanitized content no [<] stands directly behind a line feed. *)
Theorem sanitize_no_line_feed_before_tag (content : jsstring) :
  occursIn lineFeedBeforeTag (sanitize content) = false.
Proof.
  unfold sanitize, removeTjsType, replaceAll.
  apply removal_keeps_line_feeds_off.
  unfold escapeForMintlify, escapeBrace, escapeUnderscore, escapeBracket.
  do 3 (apply shape_not_created;
        [ intros t len r H; rewrite (literal_replacement _ _ _ H);
          apply inertb_sound; reflexivity
        | apply lineFeedBeforeTag_nonempty | ]).
  rewrite joinLinesBeforeTags_ahead.
  apply shape_removed.
  - intros t len r H. rewrite (newlinesAhead_replacement _ H).
    apply inertb_sound. reflexivity.
  - apply lineFeedBeforeTag_nonempty.
  - apply fits_lineFeedBeforeTag.
Qed.

Lemma headingOpen_angles (t : jsstring) (len : nat) (r : jsstring) :
  headingOpen t = Some (len, r) ->
  1 <= len /\ angles r = angles (firstn len t).
Proof.
  intros H. apply headingOpen_inv in H.
  destruct H as (d & rest & -> & Hd & -> & ->).
  split; [lia|]. apply isLevelDigit_cases in Hd.
  destruct Hd as [-> | [-> | [-> | [-> | [-> | ->]]]]]; reflexivity.
Qed.

Lemma headingClose_angles (t : jsstring) (len : nat) (r : jsstring) :
  headingClose t = Some (len, r) ->
  1 <= len /\ angles r = angles (firstn len t).
Proof.
  intros H. apply headingClose_inv in H.
  destruct H as (d & rest & -> & Hd & -> & ->).
  split; [lia|]. apply isLevelDigit_cases in Hd.
  destruct Hd as [-> | [-> | [-> | [-> | [-> | ->]]]]]; reflexivity.
Qed.

Lemma newlinesBeforeTag_angles (t : jsstring) (len : nat) (r : jsstring) :
  newlinesBeforeTag t = Some (len, r) ->
  1 <= len /\ angles r = angles (firstn len t).
Proof.
  intros H. apply newlinesBeforeTag_inv in H.
  destruct H as (n & Hn & -> & -> & rest & Hskip).
  split; [lia|].
  rewrite (firstn_S_skipn _ _ Hskip), angles_app.
  rewrite (@angles_of_newlines (firstn (S n) t)); [reflexivity|].
  rewrite <- Hn. apply countWhile_firstn.
Qed.

Lemma literal_angles (pattern replacement t : jsstring) (len : nat)
  (r : jsstring) :
  1 <= length pattern -> angles replacement = angles pattern ->
  literal pattern replacement t = Some (len, r) ->
  1 <= len /\ angles r = angles (firstn len t).
Proof.
  intros Hlen Ha H. apply literal_inv in H.
  destruct H as (-> & -> & ->). auto.
Qed.

Lemma angles_replaceAll (m : Matcher) (s : jsstring) :
  (forall t len r, m t = Some (len, r) ->
                   1 <= len /\ angles r = angles (firstn len t)) ->
  angles (replaceAll m s) = angles s.
Proof.
  intros Hm. unfold replaceAll. now rewrite (angles_replaceAllFrom m Hm).
Qed.

Lemma angles_removal (s : jsstring) (k : nat) :
  length (angles (replaceAllFrom tjsTypeParagraph k s)) <= length (angles s).
Proof.
  revert k. induction s as [|c rest IH]; intros k; [reflexivity|].
  assert (Hstep : forall j,
             length (angles (replaceAllFrom tjsTypeParagraph j rest))
             <= length (angles (c :: rest))).
  { intros j. specialize (IH j). unfold angles in *. cbn [filter].
    destruct (isAngle c); simpl; lia. }
  cbn [replaceAllFrom]. destruct k as [|k]; [| apply Hstep].
  destruct (tjsTypeParagraph (c :: rest)) as [[len r]|] eqn:Em.
  - apply tjsTypeParagraph_inv in Em. destruct Em as (-> & _). apply Hstep.
  - specialize (IH 0). unfold angles in *. cbn [filter].
    destruct (isAngle c); simpl; lia.
Qed.

(** The rewrites before the removal of the paragraphs neither add nor drop
    nor reorder an angle bracket; the removal only takes some away. *)
Theorem sanitize_keeps_angle_brackets (content : jsstring) :
  angles (escapeForMintlify content) = angles content
  /\ length (angles (sanitize content)) <= length (angles content).
Proof.
  assert (E : angles (escapeForMintlify content) = angles content).
  { unfold escapeForMintlify, escapeBrace, escapeUnderscore, escapeBracket,
      joinLinesBeforeTags, encodeNbsp, reduceIndent, convertHeadings.
    do 3 (rewrite angles_replaceAll
           by (intros t len r; apply literal_angles; [simpl; lia | reflexivity])).
    rewrite angles_replaceAll by apply newlinesBeforeTag_angles.
    do 2 (rewrite angles_replaceAll
           by (intros t len r; apply literal_angles; [simpl; lia | reflexivity])).
    rewrite angles_replaceAll by apply headingClose_angles.
    now rewrite angles_replaceAll by apply headingOpen_angles. }
  split; [exact E|].
  rewrite <- E. apply angles_removal.
Qed.

Lemma countWhile_app_stop (p : char -> bool) (body : jsstring) (c : char)
  (rest : jsstring) :
  Forall (fun x => p x = true) body -> p c = false ->
  countWhile p (body ++ c :: rest) = length body.
Proof.
  induction 1 as [|x body Hx _ IH]; intros Hc; cbn [app countWhile length].
  - now rewrite Hc.
  - now rewrite Hx, IH.
Qed.

(** A [@TJS-type] paragraph is removed when its text is not empty and has
    no [<] in it; with an empty text it stays. *)
Theorem removeTjsType_paragraph (body rest : jsstring) :
  ~ In (chr "<") body ->
  (body <> [] ->
   removeTjsType (lit "<p>@TJS-type " ++ body ++ lit "</p>" ++ rest)
   = removeTjsType rest)
  /\ removeTjsType (lit "<p>@TJS-type " ++ lit "</p>" ++ rest)
     = lit "<p>@TJS-type " ++ lit "</p>" ++ removeTjsType rest.
Proof.
  intros Hb. split.
  - intros Hne. unfold removeTjsType.
    assert (Hcount : countWhile (fun c => negb (c =? chr "<")%N)
                       (body ++ lit "</p>" ++ rest) = length body).
    { change (lit "</p>" ++ rest) with (chr "<" :: lit "/p>" ++ rest).
      apply countWhile_app_stop; [| reflexivity].
      apply Forall_forall. intros x Hx. apply negb_true_iff, N.eqb_neq.
      intros E. subst. contradiction. }
    assert (Em : tjsTypeParagraph
                   (lit "<p>@TJS-type " ++ body ++ lit "</p>" ++ rest)
                 = Some (13 + length body + 4, [])).
    { unfold tjsTypeParagraph. rewrite startsWith_app, skipn_app_exact, Hcount.
      destruct body as [|b body]; [congruence|].
      cbn [length]. change (S (length body)) with (length (b :: body)).
      rewrite skipn_app_exact, startsWith_app. reflexivity. }
    assert (Hs : lit "<p>@TJS-type " ++ body ++ lit "</p>" ++ rest <> []).
    { change (lit "<p>@TJS-type ") with (chr "<" :: lit "p>@TJS-type ").
      discriminate. }
    rewrite (replaceAll_match tjsTypeParagraph Hs Em).
    cbn [app]. f_equal.
    change (pred (13 + length body + 4)) with (12 + length body + 4).
    change (tl (lit "<p>@TJS-type " ++ body ++ lit "</p>" ++ rest))
      with (lit "p>@TJS-type " ++ body ++ lit "</p>" ++ rest).
    replace (12 + length body + 4)
      with (length (lit "p>@TJS-type " ++ body ++ lit "</p>"))
      by (rewrite !length_app; simpl; lia).
    replace (lit "p>@TJS-type " ++ body ++ lit "</p>" ++ rest)
      with ((lit "p>@TJS-type " ++ body ++ lit "</p>") ++ rest)
      by (now rewrite <- !app_assoc).
    apply skipn_app_exact.
  - unfold removeTjsType. cbn [app].
    repeat (rewrite replaceAll_copy by reflexivity). reflexivity.
Qed.

Lemma removeTjsType_paragraph_witness :
  removeTjsType (lit "<p>@TJS-type " ++ lit "integer" ++ lit "</p>"
                   ++ lit "<p>The count.</p>")
  = lit "<p>The count.</p>".
Proof.
  rewrite (proj1 (@removeTjsType_paragraph (lit "integer")
                    (lit "<p>The count.</p>")
                    ltac:(vm_compute; intros H;
                          repeat (destruct H as [H | H]; [discriminate H |]);
                          exact H))
             ltac:(discriminate)).
  vm_compute. reflexivity.
Defined.

(** ** Pages in another order, members without anchors *)

Lemma sorted_permutation_unique {A} (R : A -> A -> Prop) (l1 l2 : list A) :
  StronglySorted R l1 -> StronglySorted R l2 -> Permutation l1 l2 ->
  (forall a b, In a l1 -> In b l1 -> R a b -> R b a -> a = b) ->
  l1 = l2.
Proof.
  intros H1. revert l2.
  induction H1 as [|a t1 Hs1 IH Ha]; intros l2 H2 Hperm Hanti.
  - now apply Permutation_nil in Hperm.
  - destruct H2 as [|b t2 Hs2 Hb].
    + apply Permutation_sym, Permutation_nil in Hperm. discriminate.
    + rewrite Forall_forall in Ha, Hb.
      assert (Hab : a = b).
      { assert (Hin_a : In a (b :: t2))
          by (apply (Permutation_in _ Hperm); now left).
        assert (Hin_b : In b (a :: t1))
          by (apply (Permutation_in _ (Permutation_sym Hperm)); now left).
        destruct Hin_a as [E | Hin_a]; [congruence|].
        destruct Hin_b as [E | Hin_b]; [congruence|].
        apply Hanti; [now left | now right | now apply Ha | now apply Hb]. }
      subst b. f_equal. apply IH.
      * exact Hs2.
      * now apply Permutation_cons_inv in Hperm.
      * intros x y Hx Hy. apply Hanti; now right.
Qed.

Section PageOrder.
Context {host : Host}.

(** When the comparator orders the names consistently and no two
    declaration events have names that it takes for equal, the page does
    not depend on the order in which the router yields the pages.  The
    events whose model is not a declaration may be any, and any number. *)
Theorem page_independent_of_page_order (events events' : list PageEvent) :
  consistentComparator localeCompare ->
  (forall e1 e2,
      In e1 events -> In e2 events ->
      isDeclarationReflectionEvent e1 = true ->
      isDeclarationReflectionEvent e2 = true ->
      nameNotAfter e1 e2 -> nameNotAfter e2 e1 -> e1 = e2) ->
  Permutation events events' ->
  renderPageEvents events = renderPageEvents events'.
Proof.
  intros [Htotal Htrans] Hanti Hperm.
  assert (Hsorted : forall l,
             StronglySorted nameNotAfter (declarationEventsOf l)).
  { intros l. unfold declarationEventsOf, nameNotAfter.
    apply sortWith_sorted_by.
    - intros a b. unfold compareEventNames. apply Htotal.
    - intros a b c. unfold compareEventNames. apply Htrans. }
  assert (E : declarationEventsOf events = declarationEventsOf events').
  { apply (sorted_permutation_unique (Hsorted events) (Hsorted events')).
    - rewrite !declarationEventsOf_perm. now apply filter_perm.
    - intros a b Ha Hb.
      apply (Permutation_in _ (declarationEventsOf_perm events)) in Ha, Hb.
      apply filter_In in Ha, Hb. apply Hanti; tauto. }
  unfold renderPageEvents, pageElements, outputsByCategoryOf.
  now rewrite E.
Qed.

(** A property among the children of a declaration is rendered as a
    member, or else it has no anchor and every link to it is the bare
    [#]: no link leads to a member that the page leaves out. *)
Theorem property_rendered_or_unlinked
  (parent child : DeclarationReflection) :
  In child (directChildren parent) ->
  decl_kind child = KProperty ->
  (hasComment child = true /\ In child (documentedMembers parent))
  \/ (hasComment child = false
      /\ ~ In child (documentedMembers parent)
      /\ getAnchor (OfDeclaration child) = Some []
      /\ getFullUrl (OfDeclaration child) = Some (lit "#")).
Proof.
  intros Hin Hkind.
  assert (Hmem : In child (documentedMembers parent) <->
                 hasComment child = true).
  { unfold documentedMembers, directChildren in *.
    destruct (decl_children parent) as [children|]; [| destruct Hin].
    rewrite filter_In. tauto. }
  destruct (hasComment child) eqn:Hc.
  - left. split; [reflexivity | now apply Hmem].
  - right. split; [reflexivity | split].
    + intros H. apply Hmem in H. discriminate.
    + assert (Ha : getAnchor (OfDeclaration child) = Some []).
      { unfold getAnchor, kindOf. cbn [asDeclaration reflection_kind].
        rewrite Hkind, Hc. reflexivity. }
      split; [exact Ha|]. unfold getFullUrl. now rewrite Ha.
Qed.

End PageOrder.

(** The pages of a project with three declarations as the router yields
    them, the two pages of the project first, and in reverse order. *)
Lemma page_independent_of_page_order_witness :
  let events := buildPageEvents (host := structureHost) threeLabels in
  length events = 5
  /\ length (filter (isDeclarationReflectionEvent) events) = 3
  /\ renderPageEvents (host := structureHost) events
     = renderPageEvents (host := structureHost) (rev events).
Proof.
  intros events. split; [reflexivity | split; [reflexivity |]].
  apply (page_independent_of_page_order (host := structureHost)).
  - exact compareCodeUnits_consistent.
  - intros e1 e2 H1 H2 Hd1 Hd2 Hle1 Hle2.
    destruct H1 as [<- | [<- | [<- | [<- | [<- | []]]]]];
      try discriminate Hd1;
      destruct H2 as [<- | [<- | [<- | [<- | [<- | []]]]]];
      try discriminate Hd2;
      try reflexivity;
      exfalso;
      first [ apply Hle1; vm_compute; reflexivity
            | apply Hle2; vm_compute; reflexivity ].
  - apply Permutation_rev.
Defined.

Lemma property_rendered_or_unlinked_witness :
  In (plainProperty (lit "extra") None)
     (documentedMembers (host := sampleHost) toolDeclaration)
  \/ getFullUrl (host := sampleHost)
       (OfDeclaration (plainProperty (lit "extra") None)) = Some (lit "#").
Proof.
  destruct (property_rendered_or_unlinked (host := sampleHost)
              toolDeclaration (plainProperty (lit "extra") None))
    as [[_ H] | (_ & _ & _ & H)].
  - simpl. right. left. reflexivity.
  - reflexivity.
  - now left.
  - now right.
Defined.
